(** * RustySEO sidebar summary: the crawl-summary reducer, its debounced
    recomputation and the summary rows

    A shallow embedding of
    [src/app/global/_components/Sidebar/General/DropDowns/Summary.tsx]
    (the [reducer], the two effects of the [Summary] component, the memoised
    [summaryData]) and of [clearChatHistory] from the AI chat container.

    Conventions of the embedding:
    - a JS array of strings is a [list string]; a JS [Set] of strings is the
      list of its elements in insertion order (what [Array.from] returns);
    - an optional field ([?:]) is an [option]; optional chaining ([?.]) is the
      bind of [option];
    - the [number] of the indexability score is an IEEE-754 binary64 value
      ([PrimFloat.float]); counters and array lengths are integers ([Z]),
      so that the subtraction of the component is the integer subtraction
      of JavaScript and not a truncated one;
    - React state is threaded explicitly; [setSummary] appends to a log. *)

From Stdlib Require Import ZArith QArith Qround Qabs Floats Lia Lqa.
From stdpp Require Import gmap strings list pretty.

Local Open Scope Z_scope.

(** ** Crawl records *)

(** [interface CrawlDataItem], lines 15-23. *)
Record LinkGroup := { links : option (list string) }.

Record AnchorLinks := {
  internal : option LinkGroup;
  external : option LinkGroup;
}.

Record IndexabilityInfo := { indexability' : option float }.

Record CrawlDataItem := {
  anchor_links : option AnchorLinks;
  indexability : option IndexabilityInfo;
}.

(** ** JavaScript primitives used by the reducer *)

Module JS.

(** [set.add(x)]: a [Set] keeps insertion order and ignores an element
    it already holds. *)
Definition Set_add (s : list string) (x : string) : list string :=
  if decide (x ∈ s) then s else s ++ [x].

(** [new Set(iterable)] adds the elements one by one. *)
Definition Set_new (l : list string) : list string :=
  foldl Set_add [] l.

(** [arr?.forEach((link) => set.add(link))]. *)
Definition forEach_add (arr : option (list string)) (s : list string)
  : list string :=
  match arr with
  | Some l => foldl Set_add s l
  | None => s
  end.

(** Truthiness of a number: [0], [-0] and [NaN] are falsy. *)
Definition truthy (x : float) : bool :=
  negb (PrimFloat.is_nan x || PrimFloat.is_zero x).

(** [x || 0] for an optional number. *)
Definition or_zero (x : option float) : float :=
  match x with
  | Some v => if truthy v then v else 0%float
  | None => 0%float
  end.

(** [a > b] on numbers. *)
Definition gt (a b : float) : bool := PrimFloat.ltb b a.

End JS.

(** ** The reducer (lines 43-90) *)

Record State := {
  internalLinks : list string;
  externalLinks : list string;
  totalIndexablePages : Z;
  isProcessing : bool;
}.

Record Action := {
  type : string;
  payload : list CrawlDataItem;
}.

Definition UPDATE_DATA (data : list CrawlDataItem) : Action :=
  {| type := "UPDATE_DATA"; payload := data |}.

Definition initialState : State := {|
  internalLinks := [];
  externalLinks := [];
  totalIndexablePages := 0;
  isProcessing := false;
|}.

(** [item?.anchor_links?.internal?.links] and its siblings. *)
Definition internal_links_of (item : CrawlDataItem) : option (list string) :=
  (anchor_links item ≫= internal) ≫= links.

Definition external_links_of (item : CrawlDataItem) : option (list string) :=
  (anchor_links item ≫= external) ≫= links.

Definition score_of (item : CrawlDataItem) : option float :=
  indexability item ≫= indexability'.

(** The three locals of the [UPDATE_DATA] case. *)
Record Locals := {
  internalLinksSet : list string;
  externalLinksSet : list string;
  count : Z;
}.

(** One iteration of [for (const item of action.payload)], lines 69-79. *)
Definition loop_body (acc : Locals) (item : CrawlDataItem) : Locals := {|
  internalLinksSet := JS.forEach_add (internal_links_of item) (internalLinksSet acc);
  externalLinksSet := JS.forEach_add (external_links_of item) (externalLinksSet acc);
  count :=
    if JS.gt (JS.or_zero (score_of item)) 0.5%float
    then count acc + 1
    else count acc;
|}.

Definition reducer (state : State) (action : Action) : State :=
  if String.eqb (type action) "UPDATE_DATA" then
    let acc := foldl loop_body
      {| internalLinksSet := JS.Set_new (internalLinks state);
         externalLinksSet := JS.Set_new (externalLinks state);
         count := 0 |}
      (payload action) in
    {| internalLinks := internalLinksSet acc;
       externalLinks := externalLinksSet acc;
       totalIndexablePages := count acc;
       isProcessing := false |}
  else state.

(** The fold of the specification: the reducer on an [UPDATE_DATA] action. *)
Definition fold (state : State) (batch : list CrawlDataItem) : State :=
  reducer state (UPDATE_DATA batch).

(** ** The published summary (lines 108-121) *)

Record SummaryView := {
  totaPagesCrawled : Z;
  totalInternalLinks : Z;
  totalExternalLinks : Z;
  totalLinksFound : Z;
  notIndexablePages : Z;
  indexablePages : Z;
}.

(** [arr.length]. *)
Definition len {A} (arr : list A) : Z := Z.of_nat (length arr).

(** The object literal handed to [setSummary], lines 111-119. *)
Definition summary_of (state : State) (stableCrawlData : list CrawlDataItem)
  : SummaryView := {|
  totaPagesCrawled := len stableCrawlData;
  totalInternalLinks := len (internalLinks state);
  totalExternalLinks := len (externalLinks state);
  totalLinksFound := len (internalLinks state) + len (externalLinks state);
  notIndexablePages := len stableCrawlData - totalIndexablePages state;
  indexablePages := totalIndexablePages state;
|}.

(** The body of the first effect: [setSummary] is called unless
    [state.isProcessing]; [published] is the log of the calls, oldest
    first. *)
Definition publish_effect (state : State) (stableCrawlData : list CrawlDataItem)
  (published : list SummaryView) : list SummaryView :=
  if negb (isProcessing state)
  then published ++ [summary_of state stableCrawlData]
  else published.

(** The "Processing..." span of the header, lines 198-200. *)
Definition processing_indicator (state : State) : option string :=
  if isProcessing state then Some "Processing..." else None.

(** ** The component as a transition system (lines 92-127)

    [debounce(f, 300)] of lodash with its default options (trailing edge
    only) holds at most one timer: a call stores its arguments and arms the
    timer [wait] after the call; [cancel] drops the timer.  The cleanup of
    the second effect cancels before every new call, so a pending call is
    the pair of its due time and the snapshot it was given.  The clock is
    virtual: an event carries the time at which it happens. *)

Definition wait : Z := 300.

Record Summary := {
  crawlData : list CrawlDataItem;   (* [stableCrawlData] *)
  state : State;                    (* the state of [useReducer] *)
  pending : option (Z * list CrawlDataItem);
  mounted : bool;
  now : Z;
  published : list SummaryView;     (* calls of [setSummary] *)
  dispatched : list (Z * list CrawlDataItem);  (* runs of the reducer *)
}.

Inductive Event :=
  | SetCrawlData (t : Z) (data : list CrawlDataItem)
  | TimerFires (t : Z)
  | Unmount (t : Z).

(** First render followed by both effects. *)
Definition mount (t : Z) (data : list CrawlDataItem) : Summary := {|
  crawlData := data;
  state := initialState;
  pending := Some (t + wait, data);
  mounted := true;
  now := t;
  published := publish_effect initialState data [];
  dispatched := [];
|}.

Definition step (c : Summary) (e : Event) : option Summary :=
  match e with
  | SetCrawlData t data =>
      (* the store hands over a new array: both effects run again, the
         second one after its cleanup *)
      if mounted c && (now c <=? t) then
        Some {| crawlData := data;
                state := state c;
                pending := Some (t + wait, data);
                mounted := true;
                now := t;
                published := publish_effect (state c) data (published c);
                dispatched := dispatched c |}
      else None
  | TimerFires t =>
      (* the timer may fire at its due time or later; the dispatch gives a
         new state object, so the first effect runs again *)
      match pending c with
      | Some (due, args) =>
          if (due <=? t) && (now c <=? t) then
            let state' := reducer (state c) (UPDATE_DATA args) in
            Some {| crawlData := crawlData c;
                    state := state';
                    pending := None;
                    mounted := mounted c;
                    now := t;
                    published := publish_effect state' (crawlData c) (published c);
                    dispatched := dispatched c ++ [(t, args)] |}
          else None
      | None => None
      end
  | Unmount t =>
      if mounted c && (now c <=? t) then
        Some {| crawlData := crawlData c;
                state := state c;
                pending := None;
                mounted := false;
                now := t;
                published := published c;
                dispatched := dispatched c |}
      else None
  end.

Fixpoint run (c : Summary) (events : list Event) : option Summary :=
  match events with
  | [] => Some c
  | e :: events' =>
      match step c e with
      | Some c' => run c' events'
      | None => None
      end
  end.

(** ** The rows of the panel (lines 129-184)

    The quotients of the panel are JavaScript numbers.  Their operands are
    integers (array lengths and a counter); the quotient and the product are
    rounded to a binary64 value.  The rounding is the parameter [rnd] of this
    section: [rnd x] is the number that represents the real [x].  The exact
    arithmetic is the instance [rnd := id].  A quotient by zero is not a
    number ([0 / 0]) or an infinity, as in JavaScript. *)

(** The values a quotient of the panel can take. *)
Inductive number :=
  | NaN
  | Infinity
  | NegInfinity
  | Finite (x : Q).

Record SummaryItem := {
  label : string;
  value : Z;
  percentage : string;
}.

(** Truthiness of an integer-valued number in [cond ? a : b]. *)
Definition nonzero (n : Z) : bool := negb (n =? 0).

(** [x.toFixed(0)] (ECMAScript, Number.prototype.toFixed): a negative [x]
    gives the sign and is negated; [n] is the integer closest to [x], the
    larger one when two are equally close; the result is the sign followed
    by the decimal digits of [n]. *)
Definition toFixed0_digits (x : Q) : Z := Qfloor (x + (1 # 2))%Q.

Definition toFixed0 (x : Q) : string :=
  if Qle_bool 0%Q x
  then pretty (Z.to_N (toFixed0_digits x))
  else "-" +:+ pretty (Z.to_N (toFixed0_digits (- x)%Q)).

(** [toFixed(0)] of any number: what is not finite prints as its name. *)
Definition Number_toFixed0 (x : number) : string :=
  match x with
  | NaN => "NaN"
  | Infinity => "Infinity"
  | NegInfinity => "-Infinity"
  | Finite q => toFixed0 q
  end.

Section Panel.

Variable rnd : Q -> Q.

(** [part / whole] for an integer [part] and a [whole] that is a length
    or a sum of lengths (its zero is the positive zero). *)
Definition divide (part whole : Z) : number :=
  if whole =? 0 then
    if part =? 0 then NaN
    else if 0 <? part then Infinity
    else NegInfinity
  else Finite (rnd (inject_Z part / inject_Z whole)).

(** [x * 100]. *)
Definition times100 (x : number) : number :=
  match x with
  | Finite q => Finite (rnd (q * 100))
  | NaN => NaN
  | Infinity => Infinity
  | NegInfinity => NegInfinity
  end.

(** [`${((part / whole) * 100).toFixed(0)}%`]. *)
Definition percent (part whole : Z) : string :=
  Number_toFixed0 (times100 (divide part whole)) +:+ "%".

Definition summaryData (state : State) (stableCrawlData : list CrawlDataItem)
  : list SummaryItem :=
  let totalPagesCrawled := len stableCrawlData in
  let totalNotIndexablePages := len stableCrawlData - totalIndexablePages state in
  let totalLinks := len (internalLinks state) + len (externalLinks state) in
  [ {| label := "Pages crawled";
       value := totalPagesCrawled;
       percentage := "100%" |};
    {| label := "Total Links Found";
       value := totalLinks;
       percentage := "100%" |};
    {| label := "Total Internal Links";
       value := len (internalLinks state);
       percentage :=
         if nonzero totalLinks
         then percent (len (internalLinks state)) totalLinks
         else "0%" |};
    {| label := "Total External Links";
       value := len (externalLinks state);
       percentage :=
         if nonzero totalLinks
         then percent (len (externalLinks state)) totalLinks
         else "0%" |};
    {| label := "Total Indexable Pages";
       value := totalIndexablePages state;
       percentage :=
         if nonzero totalPagesCrawled
         then percent (totalIndexablePages state) totalPagesCrawled
         else "0%" |};
    {| label := "Total Not Indexable Pages";
       value := totalNotIndexablePages;
       percentage :=
         if nonzero totalPagesCrawled
         then percent totalNotIndexablePages totalPagesCrawled
         else "0%" |} ].

End Panel.

(** What the rounding of binary64 arithmetic guarantees on the range the
    panel uses: zero is exact, and a value between [2^-40] and [2^40] in
    magnitude is rounded with a relative error of at most [2^-53]. *)
Definition binary64_rounding (rnd : Q -> Q) : Prop :=
  (forall y : Q, y == 0 -> rnd y == 0)%Q /\
  (forall y : Q,
     1 / inject_Z (2 ^ 40) <= Qabs y -> Qabs y <= inject_Z (2 ^ 40) ->
     Qabs (rnd y - y) <= Qabs y / inject_Z (2 ^ 53))%Q.

(** The unit roundoff of binary64, [2^-53]. *)
Definition unit_roundoff : Q := 1 # 9007199254740992.

(** The arrays of JavaScript hold fewer than [2^32] elements. *)
Definition MAX_ARRAY_LENGTH : Z := 2 ^ 32.

(** A string shows the whole percent nearest to [part / whole * 100] (for
    [0 < whole]): an optional sign, the digits of [n] and the percent
    sign, with [n] at most one half away from the magnitude of the ratio. *)
Definition shows_nearest_percent (s : string) (part whole : Z) : Prop :=
  exists n : Z,
    0 <= n /\
    s = (if part <? 0 then "-" else "") +:+ pretty (Z.to_N n) +:+ "%" /\
    2 * Z.abs (n * whole - 100 * Z.abs part) <= whole.

(** ** The chat container's history ([clearChatHistory], lines 60-70) *)

Inductive Role := user | assistant.

Record Message := {
  id : Z;
  role : Role;
  content : string;
}.

Record AIcontainer := {
  messages : list Message;
  localStorage : gmap string string;
  toasts : list string;
}.

Definition LOCAL_STORAGE_KEY : string := "chat_messages".

Definition clearChatHistory (c : AIcontainer) : AIcontainer := {|
  messages := [];
  localStorage := delete LOCAL_STORAGE_KEY (localStorage c);
  toasts := toasts c ++ ["Chat history cleared"];
|}.

(** The two components side by side: the chat container and the summary
    panel share no state. *)
Record App := {
  chat : AIcontainer;
  summary : Summary;
}.

Definition App_clearChatHistory (a : App) : App :=
  {| chat := clearChatHistory (chat a); summary := summary a |}.

(** ** The rest of the chat container (lines 38-58, 77-83 and 85-124)

    [JSON.parse], [JSON.stringify] and [String.prototype.trim] are the
    parameters of this section.  [invoke] and [Date.now] are inputs: the
    handler is split where it awaits, into the part that runs on submit and
    the two continuations, which keep the [updatedMessages] of their own
    call.  Whether [localStorage.setItem] throws (the storage is full) is
    an input of the continuation that writes.  What [console.error] prints
    is not kept. *)

(** What [JSON.parse] makes of a stored string: it throws, or it gives a
    value that is not an array, or it gives an array, which the container
    takes as its messages without looking at it. *)
Inductive Parsed :=
  | ParseError
  | NotArray
  | ParsedArray (parsedMessages : list Message).

(** A call of [handleSubmit] that awaits its response. *)
Record Request := {
  prompt : string;
  updatedMessages : list Message;
}.

(** What the synchronous part of [handleSubmit] leaves: the container, the
    input field and the call in flight, if any. *)
Record Submitted := {
  container : AIcontainer;
  input_field : string;
  request : option Request;
}.

Section Chat.

Variable JSON_parse : string -> Parsed.
Variable JSON_stringify : list Message -> string.
Variable trim : string -> string.

(** [loadMessages], lines 40-54: a missing or empty entry, a string that
    does not parse and a value that is not an array leave the messages. *)
Definition loadMessages (c : AIcontainer) : AIcontainer :=
  match localStorage c !! LOCAL_STORAGE_KEY with
  | Some storedMessages =>
      if String.eqb storedMessages "" then c
      else
        match JSON_parse storedMessages with
        | ParsedArray parsedMessages =>
            {| messages := parsedMessages;
               localStorage := localStorage c;
               toasts := toasts c |}
        | NotArray => c
        | ParseError => c
        end
  | None => c
  end.

(** [handleSubmit] up to the [await], lines 85-100, at time [now]. *)
Definition handleSubmit (now : Z) (input : string) (c : AIcontainer) : Submitted :=
  if String.eqb (trim input) "" then
    {| container := c; input_field := input; request := None |}
  else
    let userMessage := {| id := now; role := user; content := input |} in
    let updatedMessages := messages c ++ [userMessage] in
    {| container :=
         {| messages := updatedMessages;
            localStorage := localStorage c;
            toasts := toasts c |};
       input_field := "";
       request := Some {| prompt := input; updatedMessages := updatedMessages |} |}.

(** The continuation when [invoke] resolves with [response] at time [now],
    lines 104-119.  The write is in a [try]: when [setItem] throws, the
    error is logged and the storage stays as it was. *)
Definition handleSubmit_resolved (now : Z) (response : string) (r : Request)
  (setItem_throws : bool) (c : AIcontainer) : AIcontainer :=
  let assistantMessage := {| id := now + 1; role := assistant; content := response |} in
  let updatedMessages := updatedMessages r ++ [assistantMessage] in
  {| messages := updatedMessages;
     localStorage :=
       if setItem_throws then localStorage c
       else <[LOCAL_STORAGE_KEY := JSON_stringify updatedMessages]> (localStorage c);
     toasts := toasts c |}.

(** The continuation when [invoke] rejects, lines 120-123. *)
Definition handleSubmit_rejected (c : AIcontainer) : AIcontainer :=
  {| messages := messages c;
     localStorage := localStorage c;
     toasts := toasts c ++ ["Failed to get response from AI"] |}.

End Chat.

(** A submit whose request resolves before anything else happens; a blank
    input makes no request and leaves the container. *)
Definition exchange (JSON_stringify : list Message -> string)
  (trim : string -> string) (t1 : Z) (input : string) (t2 : Z) (response : string)
  (setItem_throws : bool) (c : AIcontainer) : AIcontainer :=
  let submitted := handleSubmit trim t1 input c in
  match request submitted with
  | Some r =>
      handleSubmit_resolved JSON_stringify t2 response r setItem_throws
        (container submitted)
  | None => container submitted
  end.

(** A container as the component has it when it mounts on a storage. *)
Definition fresh_container (storage : gmap string string) : AIcontainer :=
  {| messages := []; localStorage := storage; toasts := [] |}.

(** The effect of lines 78-83: the stored provider, when there is one,
    becomes the selected model. *)
Definition check_provider (c : AIcontainer) (selectedModel : string) : string :=
  match localStorage c !! "AI-provider" with
  | Some model => if String.eqb model "" then selectedModel else model
  | None => selectedModel
  end.

(** What the unguarded expression of a computed row gives for a zero
    denominator. *)
Definition undefined_division (s : string) : Prop :=
  s = "NaN%" \/ s = "Infinity%" \/ s = "-Infinity%".

(** What the panel shows for a state and a snapshot: six labelled rows
    whose values are the length of the snapshot, the links found, the internal and the
    external links, the indexable pages and the other pages; the first two
    carry the literal ["100%"]; each of the four computed rows shows
    ["0%"] when its denominator (the links found, or the pages crawled) is
    zero, where the division alone would show a result that is not a
    percentage, and otherwise the whole percent nearest to its value over
    that denominator. *)
Definition panel_percentages (rnd : Q -> Q) (state : State)
  (stableCrawlData : list CrawlDataItem) (rows : list SummaryItem) : Prop :=
  exists pages found internals externals indexables others,
    rows = [pages; found; internals; externals; indexables; others] /\
    map label rows =
      ["Pages crawled"; "Total Links Found"; "Total Internal Links";
       "Total External Links"; "Total Indexable Pages";
       "Total Not Indexable Pages"] /\
    value pages = len stableCrawlData /\
    value found = len (internalLinks state) + len (externalLinks state) /\
    value internals = len (internalLinks state) /\
    value externals = len (externalLinks state) /\
    value indexables = totalIndexablePages state /\
    value others = len stableCrawlData - totalIndexablePages state /\
    percentage pages = "100%" /\ percentage found = "100%" /\
    (value found = 0 ->
     percentage internals = "0%" /\ percentage externals = "0%" /\
     undefined_division (percent rnd (value internals) (value found)) /\
     undefined_division (percent rnd (value externals) (value found))) /\
    (value found <> 0 ->
     shows_nearest_percent (percentage internals) (value internals) (value found) /\
     shows_nearest_percent (percentage externals) (value externals) (value found)) /\
    (value pages = 0 ->
     percentage indexables = "0%" /\ percentage others = "0%" /\
     undefined_division (percent rnd (value indexables) (value pages)) /\
     undefined_division (percent rnd (value others) (value pages))) /\
    (value pages <> 0 ->
     shows_nearest_percent (percentage indexables) (value indexables) (value pages) /\
     shows_nearest_percent (percentage others) (value others) (value pages)).

(** ** Sample records *)

Definition page (internals externals : list string) (score : float)
  : CrawlDataItem :=
  {| anchor_links :=
       Some {| internal := Some {| links := Some internals |};
               external := Some {| links := Some externals |} |};
     indexability := Some {| indexability' := Some score |} |}.

(** A record with no field at all. *)
Definition bare_page : CrawlDataItem :=
  {| anchor_links := None; indexability := None |}.

(** A record whose [indexability] object holds [score] and nothing else. *)
Definition scored_page (score : float) : CrawlDataItem :=
  {| anchor_links := None; indexability := Some {| indexability' := Some score |} |}.

(** The scores of the examples.  [0.5001] and [0.9] denote, as in
    JavaScript, the binary64 values closest to them. *)
Definition score_0_5 : float := 0.5%float.
#[warnings="-inexact-float"]
Definition score_0_5001 : float := 0.5001%float.
#[warnings="-inexact-float"]
Definition score_0_9 : float := 0.9%float.

(** ** Notions used to state the properties *)

(** The links a batch contributes, in the order the loop meets them. *)
Definition links_of (field : CrawlDataItem -> option (list string))
  (batch : list CrawlDataItem) : list string :=
  batch ≫= (fun item => default [] (field item)).

(** A score strictly above one half; no score is no such score. *)
Definition above_half (score : option float) : bool :=
  match score with
  | Some s => PrimFloat.ltb 0.5%float s
  | None => false
  end.

Definition indexable (item : CrawlDataItem) : Prop :=
  above_half (score_of item) = true.

#[global] Instance indexable_dec (item : CrawlDataItem) : Decision (indexable item).
Proof. unfold indexable. apply _. Defined.

(** The number of indexable records of a batch. *)
Definition indexable_count (batch : list CrawlDataItem) : Z :=
  len (filter indexable batch).

(** The states a session can be in: the initial one and what the reducer
    makes of them. *)
Inductive reachable : State -> Prop :=
  | reachable_init : reachable initialState
  | reachable_step state action :
      reachable state -> reachable (reducer state action).

(** The snapshots of an append-only record store that receives [batches]
    one after the other, having already [seen] some records. *)
Fixpoint snapshots (seen : list CrawlDataItem) (batches : list (list CrawlDataItem))
  : list (list CrawlDataItem) :=
  match batches with
  | [] => []
  | b :: batches' => (seen ++ b) :: snapshots (seen ++ b) batches'
  end.


Definition signals (events : list Event) : list (Z * list CrawlDataItem) :=
  omap (fun e => match e with SetCrawlData t d => Some (t, d) | _ => None end) events.



(** No fold is armed and the last fold ran over the current snapshot. *)
Definition settled (c : Summary) : Prop :=
  pending c = None /\ exists t, last (dispatched c) = Some (t, crawlData c).

(** A view none of whose six fields is negative. *)
Definition nonnegative_view (v : SummaryView) : Prop :=
  0 <= totaPagesCrawled v /\ 0 <= totalInternalLinks v /\
  0 <= totalExternalLinks v /\ 0 <= totalLinksFound v /\
  0 <= notIndexablePages v /\ 0 <= indexablePages v.

(** The two sums a view keeps: the links found are the internal and the
    external ones, the pages crawled are the indexable and the other ones;
    and the five fields that are lengths or counts are not negative. *)
Definition view_consistent (v : SummaryView) : Prop :=
  totalLinksFound v = totalInternalLinks v + totalExternalLinks v /\
  indexablePages v + notIndexablePages v = totaPagesCrawled v /\
  0 <= totaPagesCrawled v /\ 0 <= totalInternalLinks v /\
  0 <= totalExternalLinks v /\ 0 <= totalLinksFound v /\
  0 <= indexablePages v.

(** The number of armed folds: one or none. *)
Definition armed (c : Summary) : nat :=
  match pending c with
  | Some _ => 1
  | None => 0
  end.

(** What a run keeps true of its folds, given the signals so far: each
    fold ran over a signalled snapshot, a full window after that signal,
    and so will the armed one. *)
Record folds_ok (sigs : list (Z * list CrawlDataItem)) (c : Summary) : Prop := {
  ok_dispatched : forall t d,
    (t, d) ∈ dispatched c -> exists ts, (ts, d) ∈ sigs /\ ts + wait <= t;
  ok_armed : forall due args,
    pending c = Some (due, args) -> (due - wait, args) ∈ sigs;
}.

(** * Properties *)

(** ** Sets kept as arrays *)

Section SetLemmas.

Implicit Types (s l : list string) (x y : string).

Lemma elem_of_Set_add s x y : y ∈ JS.Set_add s x <-> y ∈ s \/ y = x.
Proof.
  unfold JS.Set_add. destruct (decide (x ∈ s)) as [Hin|Hout].
  - split; [auto|]. intros [?| ->]; assumption.
  - rewrite elem_of_app, list_elem_of_singleton. reflexivity.
Qed.

Lemma NoDup_Set_add s x : NoDup s -> NoDup (JS.Set_add s x).
Proof.
  intros Hs. unfold JS.Set_add. destruct (decide (x ∈ s)) as [Hin|Hout]; [assumption|].
  apply NoDup_app. split; [assumption|]. split.
  - intros y Hy Hy'. apply list_elem_of_singleton in Hy'. subst. contradiction.
  - apply NoDup_singleton.
Qed.

Lemma elem_of_adds l : forall s y, y ∈ foldl JS.Set_add s l <-> y ∈ s \/ y ∈ l.
Proof.
  induction l as [|x l IH]; intros s y; simpl.
  - rewrite elem_of_nil. tauto.
  - rewrite IH, elem_of_Set_add, elem_of_cons. tauto.
Qed.

Lemma NoDup_adds l : forall s, NoDup s -> NoDup (foldl JS.Set_add s l).
Proof.
  induction l as [|x l IH]; intros s Hs; simpl; [assumption|].
  apply IH, NoDup_Set_add, Hs.
Qed.

(** Adding elements that are all present changes nothing. *)
Lemma adds_absorb l : forall s, (forall x, x ∈ l -> x ∈ s) -> foldl JS.Set_add s l = s.
Proof.
  induction l as [|x l IH]; intros s Hl; simpl; [reflexivity|].
  assert (Hx : x ∈ s) by (apply Hl; left).
  unfold JS.Set_add at 2. rewrite decide_True by assumption.
  apply IH. intros y Hy. apply Hl. right. assumption.
Qed.

(** Adding never removes and never reorders what is there. *)
Lemma adds_prefix l : forall s, s `prefix_of` foldl JS.Set_add s l.
Proof.
  induction l as [|x l IH]; intros s; simpl; [reflexivity|].
  etransitivity; [|apply IH].
  unfold JS.Set_add. destruct (decide (x ∈ s)); [reflexivity|].
  apply prefix_app_r. reflexivity.
Qed.

Lemma length_adds l s : (length s <= length (foldl JS.Set_add s l))%nat.
Proof. apply prefix_length, adds_prefix. Qed.

Lemma adds_NoDup_app l : forall s, NoDup (s ++ l) -> foldl JS.Set_add s l = s ++ l.
Proof.
  induction l as [|x l IH]; intros s Hs; simpl.
  - rewrite app_nil_r. reflexivity.
  - assert (Hx : x ∉ s).
    { apply NoDup_app in Hs as (_ & Hs & _). intros Hin. apply (Hs x Hin). left. }
    unfold JS.Set_add at 2. rewrite decide_False by assumption.
    rewrite (IH (s ++ [x])); rewrite <- app_assoc; [reflexivity | exact Hs].
Qed.

(** [new Set(arr)] of an array without repetition is the array. *)
Lemma Set_new_NoDup l : NoDup l -> JS.Set_new l = l.
Proof. intros Hl. unfold JS.Set_new. rewrite adds_NoDup_app; [reflexivity | exact Hl]. Qed.

Lemma NoDup_Set_new l : NoDup (JS.Set_new l).
Proof. apply NoDup_adds, NoDup_nil_2. Qed.

Lemma elem_of_Set_new l y : y ∈ JS.Set_new l <-> y ∈ l.
Proof. unfold JS.Set_new. rewrite elem_of_adds, elem_of_nil. tauto. Qed.

Lemma Set_new_idem l : JS.Set_new (JS.Set_new l) = JS.Set_new l.
Proof. apply Set_new_NoDup, NoDup_Set_new. Qed.

End SetLemmas.

(** ** The reducer in closed form *)

(** A falsy score ([0], [-0], [NaN]) is not above one half. *)
Lemma falsy_not_above (v : float) :
  JS.truthy v = false -> PrimFloat.ltb 0.5%float v = false.
Proof.
  unfold JS.truthy, PrimFloat.is_nan, PrimFloat.is_zero.
  rewrite !FloatAxioms.eqb_spec, FloatAxioms.ltb_spec.
  change (Prim2SF 0.5) with (S754_finite false 4503599627370496 (-53)).
  change (Prim2SF zero) with (S754_zero false).
  destruct (Prim2SF v) as [sg|sg| |sg m e]; try reflexivity.
  - destruct sg; simpl; discriminate.
  - unfold SFeqb, SFltb, SFcompare.
    rewrite Z.compare_refl, Pos.compare_refl. destruct sg; simpl; discriminate.
Qed.

(** The test of line 76 is the strict comparison of the score, when there
    is one, with one half. *)
Lemma line76_above_half (score : option float) :
  JS.gt (JS.or_zero score) 0.5%float = above_half score.
Proof.
  unfold JS.gt, JS.or_zero, above_half. destruct score as [v|]; [|reflexivity].
  destruct (JS.truthy v) eqn:Hv; [reflexivity|].
  rewrite (falsy_not_above v Hv). reflexivity.
Qed.

Lemma links_of_cons field item batch :
  links_of field (item :: batch) = default [] (field item) ++ links_of field batch.
Proof. reflexivity. Qed.

Lemma links_of_app field b1 b2 :
  links_of field (b1 ++ b2) = links_of field b1 ++ links_of field b2.
Proof. unfold links_of. apply bind_app. Qed.

Lemma forEach_add_default arr s :
  JS.forEach_add arr s = foldl JS.Set_add s (default [] arr).
Proof. destruct arr; reflexivity. Qed.

Lemma indexable_count_cons item batch :
  indexable_count (item :: batch) =
  (if decide (indexable item) then 1 else 0) + indexable_count batch.
Proof.
  unfold indexable_count, len. rewrite filter_cons.
  destruct (decide (indexable item)); simpl length; lia.
Qed.

Lemma indexable_count_app b1 b2 :
  indexable_count (b1 ++ b2) = indexable_count b1 + indexable_count b2.
Proof.
  unfold indexable_count, len. rewrite filter_app, length_app. lia.
Qed.

Lemma indexable_count_bounds batch : 0 <= indexable_count batch <= len batch.
Proof.
  unfold indexable_count, len. split; [lia|].
  apply inj_le, length_filter.
Qed.

Lemma loop_spec batch : forall acc,
  foldl loop_body acc batch =
  {| internalLinksSet :=
       foldl JS.Set_add (internalLinksSet acc) (links_of internal_links_of batch);
     externalLinksSet :=
       foldl JS.Set_add (externalLinksSet acc) (links_of external_links_of batch);
     count := count acc + indexable_count batch |}.
Proof.
  induction batch as [|item batch IH]; intros acc.
  - destruct acc; simpl. f_equal. unfold indexable_count, len. simpl. lia.
  - rewrite !links_of_cons, !foldl_app, indexable_count_cons.
    change (foldl loop_body acc (item :: batch))
      with (foldl loop_body (loop_body acc item) batch).
    rewrite IH.
    unfold loop_body; cbn [internalLinksSet externalLinksSet count].
    rewrite !forEach_add_default, line76_above_half.
    f_equal.
    destruct (decide (indexable item)) as [Hi|Hi]; unfold indexable in Hi.
    + rewrite Hi. lia.
    + apply not_true_is_false in Hi. rewrite Hi. lia.
Qed.

Lemma fold_spec state batch :
  fold state batch =
  {| internalLinks :=
       foldl JS.Set_add (JS.Set_new (internalLinks state))
         (links_of internal_links_of batch);
     externalLinks :=
       foldl JS.Set_add (JS.Set_new (externalLinks state))
         (links_of external_links_of batch);
     totalIndexablePages := indexable_count batch;
     isProcessing := false |}.
Proof.
  unfold fold, reducer. simpl. rewrite loop_spec. simpl. reflexivity.
Qed.

(** An action is the update, or leaves the state alone. *)
Lemma reducer_cases state action :
  reducer state action = fold state (payload action) \/ reducer state action = state.
Proof.
  unfold fold, reducer. simpl.
  destruct (String.eqb (type action) "UPDATE_DATA"); [left|right]; reflexivity.
Qed.

(** ** What holds of every reachable state *)

Record state_ok (state : State) : Prop := {
  ok_internal : NoDup (internalLinks state);
  ok_external : NoDup (externalLinks state);
  ok_count : 0 <= totalIndexablePages state;
  ok_processing : isProcessing state = false;
}.

Lemma initialState_ok : state_ok initialState.
Proof. split; simpl; [apply NoDup_nil_2 | apply NoDup_nil_2 | lia | reflexivity]. Qed.

Lemma fold_ok state batch : state_ok (fold state batch).
Proof.
  rewrite fold_spec. split; simpl.
  - apply NoDup_adds, NoDup_Set_new.
  - apply NoDup_adds, NoDup_Set_new.
  - apply indexable_count_bounds.
  - reflexivity.
Qed.

Lemma reachable_ok state : reachable state -> state_ok state.
Proof.
  induction 1 as [|state action _ IH]; [apply initialState_ok|].
  destruct (reducer_cases state action) as [-> | ->]; [apply fold_ok | exact IH].
Qed.

Lemma reachable_foldl batches : reachable (foldl fold initialState batches).
Proof.
  induction batches as [|b batches IH] using rev_ind; [constructor|].
  rewrite foldl_app. simpl. apply reachable_step, IH.
Qed.

(** Folding keeps the links of the state, in place. *)
Lemma fold_internal_prefix state batch :
  NoDup (internalLinks state) ->
  internalLinks state `prefix_of` internalLinks (fold state batch).
Proof.
  intros Hs. rewrite fold_spec; simpl. rewrite (Set_new_NoDup _ Hs). apply adds_prefix.
Qed.

Lemma fold_external_prefix state batch :
  NoDup (externalLinks state) ->
  externalLinks state `prefix_of` externalLinks (fold state batch).
Proof.
  intros Hs. rewrite fold_spec; simpl. rewrite (Set_new_NoDup _ Hs). apply adds_prefix.
Qed.

Lemma elem_of_fold_internal state batch x :
  x ∈ internalLinks (fold state batch) <->
  x ∈ internalLinks state \/ x ∈ links_of internal_links_of batch.
Proof. rewrite fold_spec; simpl. rewrite elem_of_adds, elem_of_Set_new. reflexivity. Qed.

Lemma elem_of_fold_external state batch x :
  x ∈ externalLinks (fold state batch) <->
  x ∈ externalLinks state \/ x ∈ links_of external_links_of batch.
Proof. rewrite fold_spec; simpl. rewrite elem_of_adds, elem_of_Set_new. reflexivity. Qed.

(** ** The indexability threshold *)

(** C4. The fold counts exactly the records of the batch whose score is
    strictly above 0.5: the count of a fold is the number of such records
    whatever the prior state, a record is such a record exactly when it
    has a score [s] with [0.5 < s], and on the code a score of 0.5 is not
    counted, a score of 0.5001 is counted, and a record without the field
    (or with a zero or NaN score, which count as 0) is not counted. *)
Theorem C4_strict_indexability_threshold :
  (forall state batch,
     totalIndexablePages (fold state batch) = indexable_count batch) /\
  (forall item,
     indexable item <->
     exists s, score_of item = Some s /\ PrimFloat.ltb 0.5%float s = true) /\
  (forall state batch item,
     totalIndexablePages (fold state (batch ++ [item])) =
     totalIndexablePages (fold state batch) +
     (if decide (indexable item) then 1 else 0)) /\
  JS.or_zero (score_of bare_page) = 0%float /\
  totalIndexablePages (fold initialState [scored_page score_0_5]) = 0 /\
  totalIndexablePages (fold initialState [scored_page score_0_5001]) = 1 /\
  totalIndexablePages (fold initialState [bare_page]) = 0 /\
  totalIndexablePages
    (fold initialState [{| anchor_links := None;
                           indexability := Some {| indexability' := None |} |}]) = 0 /\
  totalIndexablePages (fold initialState [scored_page 0%float]) = 0 /\
  totalIndexablePages (fold initialState [scored_page PrimFloat.nan]) = 0 /\
  totalIndexablePages
    (fold initialState
       [scored_page score_0_5; scored_page score_0_5001; bare_page;
        scored_page score_0_9]) = 2.
Proof.
  split; [|split; [|split]].
  - intros state batch. rewrite fold_spec. reflexivity.
  - intros item. unfold indexable, above_half.
    destruct (score_of item) as [s|].
    + split; [intros Hs; exists s; auto|].
      intros (s' & Heq & Hs). injection Heq as ->. exact Hs.
    + split; [discriminate|]. intros (s' & Heq & _). discriminate.
  - intros state batch item. rewrite !fold_spec. simpl.
    rewrite indexable_count_app, indexable_count_cons.
    change (indexable_count []) with 0. lia.
  - repeat split; vm_compute; reflexivity.
Qed.

(** ** Folding an empty batch *)

(** C2, counterexample. A state with one indexable page, reached by a fold,
    loses its count when an empty batch is folded into it. *)
Lemma C2_empty_fold_resets_count :
  totalIndexablePages (fold initialState [scored_page score_0_9]) = 1 /\
  totalIndexablePages (fold (fold initialState [scored_page score_0_9]) []) = 0.
Proof. split; vm_compute; reflexivity. Qed.

(** C2, as the code has it. Folding an empty batch is idempotent; it keeps
    both link sets (the same members, and the same array when the array has
    no repetition, as every reachable state's has) and the processing flag,
    and it sets the indexable-page count to 0, the count of the empty
    snapshot. *)
Theorem C2_empty_fold_idempotent (state : State) :
  fold (fold state []) [] = fold state [] /\
  totalIndexablePages (fold state []) = 0 /\
  isProcessing (fold state []) = false /\
  (forall x, x ∈ internalLinks (fold state []) <-> x ∈ internalLinks state) /\
  (forall x, x ∈ externalLinks (fold state []) <-> x ∈ externalLinks state) /\
  (NoDup (internalLinks state) ->
   internalLinks (fold state []) = internalLinks state) /\
  (NoDup (externalLinks state) ->
   externalLinks (fold state []) = externalLinks state) /\
  (reachable state ->
   internalLinks (fold state []) = internalLinks state /\
   externalLinks (fold state []) = externalLinks state).
Proof.
  rewrite !fold_spec. simpl. rewrite !Set_new_idem.
  split; [reflexivity|]. split; [reflexivity|]. split; [reflexivity|].
  split; [intros x; apply elem_of_Set_new|].
  split; [intros x; apply elem_of_Set_new|].
  split; [apply Set_new_NoDup|]. split; [apply Set_new_NoDup|].
  intros Hr. apply reachable_ok in Hr as [Hi He _ _].
  split; apply Set_new_NoDup; assumption.
Qed.

(** ** Link sets only grow *)

(** C7. A fold keeps every URL of both link sets, whatever the state; and
    along a session, which starts in the initial state, no action of the
    reducer makes either set smaller: the set before is a prefix of the set
    after, so its size does not decrease. *)
Theorem C7_link_sets_never_shrink :
  (forall state batch x,
     (x ∈ internalLinks state -> x ∈ internalLinks (fold state batch)) /\
     (x ∈ externalLinks state -> x ∈ externalLinks (fold state batch))) /\
  (forall state action,
     reachable state ->
     internalLinks state `prefix_of` internalLinks (reducer state action) /\
     externalLinks state `prefix_of` externalLinks (reducer state action) /\
     len (internalLinks state) <= len (internalLinks (reducer state action)) /\
     len (externalLinks state) <= len (externalLinks (reducer state action))) /\
  (forall batches batch,
     len (internalLinks (foldl fold initialState batches)) <=
     len (internalLinks (foldl fold initialState (batches ++ [batch]))) /\
     len (externalLinks (foldl fold initialState batches)) <=
     len (externalLinks (foldl fold initialState (batches ++ [batch])))).
Proof.
  assert (Hstep : forall state action,
     reachable state ->
     internalLinks state `prefix_of` internalLinks (reducer state action) /\
     externalLinks state `prefix_of` externalLinks (reducer state action)).
  { intros state action Hr. apply reachable_ok in Hr as [Hi He _ _].
    destruct (reducer_cases state action) as [-> | ->].
    - split; [apply fold_internal_prefix | apply fold_external_prefix]; assumption.
    - split; reflexivity. }
  split; [|split].
  - intros state batch x. rewrite elem_of_fold_internal, elem_of_fold_external. tauto.
  - intros state action Hr. destruct (Hstep state action Hr) as [Hi He].
    repeat split; try assumption; unfold len; apply inj_le, prefix_length; assumption.
  - intros batches batch. rewrite foldl_app. simpl.
    destruct (Hstep _ (UPDATE_DATA batch) (reachable_foldl batches)) as [Hi He].
    split; unfold len; apply inj_le, prefix_length; assumption.
Qed.

(** ** The fold as a function of state and snapshot *)

(** Folding a snapshot into a state that has already folded a prefix of it
    gives what folding it directly gives. *)
Lemma fold_after_prefix state seen batch :
  fold (fold state seen) (seen ++ batch) = fold state (seen ++ batch).
Proof.
  assert (Hkey : forall (s l1 l2 : list string),
    foldl JS.Set_add (JS.Set_new (foldl JS.Set_add (JS.Set_new s) l1)) (l1 ++ l2) =
    foldl JS.Set_add (JS.Set_new s) (l1 ++ l2)).
  { intros s l1 l2.
    rewrite (Set_new_NoDup (foldl _ _ l1)) by apply NoDup_adds, NoDup_Set_new.
    rewrite !foldl_app. f_equal. apply adds_absorb.
    intros x Hx. apply elem_of_adds. right. exact Hx. }
  rewrite !fold_spec. simpl. rewrite !links_of_app, !Hkey. reflexivity.
Qed.

Lemma fold_snapshots batches : forall state seen,
  foldl fold (fold state seen) (snapshots seen batches) =
  fold state (seen ++ concat batches).
Proof.
  induction batches as [|b batches IH]; intros state seen; simpl.
  - rewrite app_nil_r. reflexivity.
  - rewrite fold_after_prefix, IH, <- app_assoc. reflexivity.
Qed.

(** C5, counterexample. The same (empty) snapshot folded into the initial
    state and into a state that has seen ["/x"] gives two different
    internal link sets. *)
Lemma C5_fold_depends_on_prior_state :
  internalLinks (fold initialState []) = [] /\
  internalLinks (fold (fold initialState [page ["/x"] [] score_0_9]) []) = ["/x"].
Proof. split; vm_compute; reflexivity. Qed.

(** C5, as the code has it. The fold is a function of the prior state and
    the snapshot.  The indexable-page count and the processing flag depend
    on the snapshot alone; each link set is the prior set with the links of
    the snapshot added, so from the initial state it is the set of the
    snapshot's links.  For a record store that only grows, the batching of
    the arrivals does not matter: folding every intermediate snapshot in
    turn ends in the state that one fold of the last snapshot gives. *)
Theorem C5_fold_function_of_state_and_snapshot :
  (forall state state' snapshot,
     totalIndexablePages (fold state snapshot) =
       totalIndexablePages (fold state' snapshot) /\
     isProcessing (fold state snapshot) = isProcessing (fold state' snapshot)) /\
  (forall state snapshot x,
     (x ∈ internalLinks (fold state snapshot) <->
      x ∈ internalLinks state \/ x ∈ links_of internal_links_of snapshot) /\
     (x ∈ externalLinks (fold state snapshot) <->
      x ∈ externalLinks state \/ x ∈ links_of external_links_of snapshot)) /\
  (forall snapshot,
     fold initialState snapshot =
     {| internalLinks := JS.Set_new (links_of internal_links_of snapshot);
        externalLinks := JS.Set_new (links_of external_links_of snapshot);
        totalIndexablePages := indexable_count snapshot;
        isProcessing := false |}) /\
  (forall state batch batches,
     foldl fold state (snapshots [] (batch :: batches)) =
     fold state (concat (batch :: batches))).
Proof.
  split; [|split; [|split]].
  - intros state state' snapshot. rewrite !fold_spec. split; reflexivity.
  - intros state snapshot x. split;
      [apply elem_of_fold_internal | apply elem_of_fold_external].
  - intros snapshot. rewrite fold_spec. reflexivity.
  - intros state batch batches. simpl. apply fold_snapshots.
Qed.

(** ** The component *)

Lemma publish_effect_ok state data log :
  isProcessing state = false ->
  publish_effect state data log = log ++ [summary_of state data].
Proof. intros H. unfold publish_effect. rewrite H. reflexivity. Qed.

Lemma run_app c events1 : forall events2,
  run c (events1 ++ events2) =
  match run c events1 with Some c' => run c' events2 | None => None end.
Proof.
  revert c. induction events1 as [|e events1 IH]; intros c events2; simpl; [reflexivity|].
  destruct (step c e); [apply IH | reflexivity].
Qed.

(** What a run from [mount] keeps true. *)
Record component_ok (c : Summary) : Prop := {
  ok_state : reachable (state c);
  ok_pending : forall due args,
    pending c = Some (due, args) ->
    due = now c + wait /\ args = crawlData c /\ mounted c = true;
  ok_idle : pending c = None -> mounted c = true -> settled c;
}.

Lemma mount_ok t data : component_ok (mount t data).
Proof.
  split; simpl.
  - constructor.
  - intros due args [= <- <-]. auto.
  - discriminate.
Qed.

Lemma step_ok c e c' : component_ok c -> step c e = Some c' -> component_ok c'.
Proof.
  intros [Hst Hp Hi] Hstep. destruct e as [t data|t|t]; simpl in Hstep.
  - destruct (mounted c && (now c <=? t)); [|discriminate].
    injection Hstep as <-. split; simpl.
    + exact Hst.
    + intros due args [= <- <-]. auto.
    + discriminate.
  - destruct (pending c) as [[due args]|] eqn:Hpend; [|discriminate].
    destruct ((due <=? t) && (now c <=? t)); [|discriminate].
    injection Hstep as <-. destruct (Hp due args eq_refl) as (_ & -> & Hm).
    split; simpl.
    + constructor. exact Hst.
    + discriminate.
    + intros _ _. split; [reflexivity|]. simpl. exists t. apply last_snoc.
  - destruct (mounted c && (now c <=? t)); [|discriminate].
    injection Hstep as <-. split; simpl.
    + exact Hst.
    + discriminate.
    + discriminate.
Qed.

Lemma run_ok events : forall c c',
  component_ok c -> run c events = Some c' -> component_ok c'.
Proof.
  induction events as [|e events IH]; intros c c' Hc Hrun; simpl in Hrun.
  - injection Hrun as <-. exact Hc.
  - destruct (step c e) as [c1|] eqn:Hstep; [|discriminate].
    eapply IH; [|exact Hrun]. eapply step_ok; eassumption.
Qed.

(** ** The processing flag *)

(** C10. The processing flag is false in the initial state and in what
    the reducer returns for [UPDATE_DATA], hence in every reachable state
    and in every state the component goes through; there the guard of the
    publishing effect lets the publication through and the "Processing..."
    indicator is not rendered. *)
Theorem C10_never_processing :
  isProcessing initialState = false /\
  (forall state data, isProcessing (reducer state (UPDATE_DATA data)) = false) /\
  (forall state,
     reachable state ->
     isProcessing state = false /\
     processing_indicator state = None /\
     forall data log,
       publish_effect state data log = log ++ [summary_of state data]) /\
  (forall t data events c,
     run (mount t data) events = Some c ->
     isProcessing (state c) = false /\ processing_indicator (state c) = None).
Proof.
  assert (Hreach : forall state, reachable state ->
    isProcessing state = false /\ processing_indicator state = None).
  { intros state Hr. pose proof (ok_processing _ (reachable_ok _ Hr)) as Hp.
    unfold processing_indicator. rewrite Hp. auto. }
  split; [reflexivity|]. split; [reflexivity|]. split.
  - intros state Hr. destruct (Hreach state Hr) as [Hp Hind].
    repeat split; try assumption. intros data log. apply publish_effect_ok, Hp.
  - intros t data events c Hrun. apply Hreach.
    apply (ok_state _ (run_ok events _ _ (mount_ok t data) Hrun)).
Qed.

(** ** The debounce *)



Lemma idle_timer c t : pending c = None -> step c (TimerFires t) = None.
Proof. intros Hp. simpl. rewrite Hp. reflexivity. Qed.








(** ** What is published, and when *)

(** The view published when a fold completes is built from that fold and
    from the snapshot it ran over, and none of its fields is negative. *)
Lemma view_after_fold_nonnegative state data :
  nonnegative_view (summary_of (fold state data) data).
Proof.
  destruct (fold_ok state data) as [_ _ Hc _].
  pose proof (indexable_count_bounds data) as Hb.
  unfold nonnegative_view, summary_of. rewrite fold_spec in *. simpl in *.
  unfold len in *. lia.
Qed.

Lemma fired_publication c t c' :
  component_ok c -> step c (TimerFires t) = Some c' ->
  last (published c') = Some (summary_of (state c') (crawlData c')) /\
  exists prior, state c' = fold prior (crawlData c') /\
  last (dispatched c') = Some (t, crawlData c').
Proof.
  intros [_ Hp _] Hstep. simpl in Hstep.
  destruct (pending c) as [[due args]|] eqn:Hpend; [|discriminate].
  destruct (Hp due args eq_refl) as (_ & -> & _).
  destruct ((due <=? t) && (now c <=? t)); [|discriminate].
  injection Hstep as <-. simpl. split.
  - rewrite publish_effect_ok by reflexivity. apply last_snoc.
  - exists (state c). split; [reflexivity | apply last_snoc].
Qed.

(** A view built from a state whose count does not exceed the length of
    the snapshot has no negative field. *)
Lemma summary_of_nonnegative state data :
  0 <= totalIndexablePages state <= len data ->
  nonnegative_view (summary_of state data).
Proof. unfold nonnegative_view, summary_of, len. simpl. lia. Qed.

(** Five of the six fields of a view are never negative. *)
Lemma summary_of_other_fields state data :
  0 <= totalIndexablePages state ->
  0 <= totaPagesCrawled (summary_of state data) /\
  0 <= totalInternalLinks (summary_of state data) /\
  0 <= totalExternalLinks (summary_of state data) /\
  0 <= totalLinksFound (summary_of state data) /\
  0 <= indexablePages (summary_of state data).
Proof. unfold summary_of, len. simpl. lia. Qed.

(** A run publishes once on mount, once per change of the snapshot and
    once per fold. *)
Lemma step_publications c e c' :
  component_ok c -> step c e = Some c' ->
  (length (published c') + length (dispatched c) =
   length (published c) + length (dispatched c') + length (signals [e]))%nat.
Proof.
  intros [Hst _ _] Hstep.
  pose proof (ok_processing _ (reachable_ok _ Hst)) as Hp.
  destruct e as [t data|t|t]; simpl in Hstep.
  - destruct (mounted c && (now c <=? t)); [|discriminate].
    injection Hstep as <-. simpl.
    rewrite publish_effect_ok by exact Hp. rewrite length_app. simpl. lia.
  - destruct (pending c) as [[due args]|]; [|discriminate].
    destruct ((due <=? t) && (now c <=? t)); [|discriminate].
    injection Hstep as <-. simpl.
    rewrite publish_effect_ok by reflexivity. rewrite !length_app. simpl. lia.
  - destruct (mounted c && (now c <=? t)); [|discriminate].
    injection Hstep as <-. simpl. lia.
Qed.

Lemma signals_cons e events : signals (e :: events) = signals [e] ++ signals events.
Proof. destruct e; reflexivity. Qed.

Lemma run_publications events : forall c c',
  component_ok c -> run c events = Some c' ->
  (length (published c') + length (dispatched c) =
   length (published c) + length (dispatched c') + length (signals events))%nat.
Proof.
  induction events as [|e events IH]; intros c c' Hc Hrun.
  - simpl in Hrun. injection Hrun as <-. simpl. lia.
  - simpl in Hrun. destruct (step c e) as [c1|] eqn:Hstep; [|discriminate].
    pose proof (step_publications _ _ _ Hc Hstep) as H1.
    pose proof (IH c1 c' (step_ok _ _ _ Hc Hstep) Hrun) as H2.
    rewrite signals_cons, length_app. lia.
Qed.

Lemma mount_publications t data events c :
  run (mount t data) events = Some c ->
  length (published c) = (1 + length (signals events) + length (dispatched c))%nat.
Proof.
  intros Hrun. pose proof (run_publications _ _ _ (mount_ok t data) Hrun) as H.
  simpl in H. lia.
Qed.

(** C1, the code at the failing input. Mounting on a snapshot of one page
    publishes a view before any fold has run; after the fold has run and
    the snapshot has been replaced by the empty one, three views have been
    published for one fold, and the last one pairs the length of the new
    snapshot with the indexable-page count of the old one. *)
Theorem C1_published_outside_completed_fold :
  published (mount 0 [scored_page score_0_9]) =
    [ {| totaPagesCrawled := 1; totalInternalLinks := 0;
         totalExternalLinks := 0; totalLinksFound := 0;
         notIndexablePages := 1; indexablePages := 0 |} ] /\
  dispatched (mount 0 [scored_page score_0_9]) = [] /\
  exists c,
    run (mount 0 [scored_page score_0_9]) [TimerFires 300; SetCrawlData 400 []]
      = Some c /\
    dispatched c = [(300, [scored_page score_0_9])] /\
    pending c = Some (700, []) /\
    published c =
      [ {| totaPagesCrawled := 1; totalInternalLinks := 0;
           totalExternalLinks := 0; totalLinksFound := 0;
           notIndexablePages := 1; indexablePages := 0 |};
        {| totaPagesCrawled := 1; totalInternalLinks := 0;
           totalExternalLinks := 0; totalLinksFound := 0;
           notIndexablePages := 0; indexablePages := 1 |};
        {| totaPagesCrawled := 0; totalInternalLinks := 0;
           totalExternalLinks := 0; totalLinksFound := 0;
           notIndexablePages := -1; indexablePages := 1 |} ].
Proof.
  split; [reflexivity|]. split; [reflexivity|].
  eexists. split; [vm_compute; reflexivity|].
  repeat split.
Qed.

(** C3, the code at the failing input. Two indexable pages are folded and
    the snapshot is then replaced by a single page without a score: the
    view published on the replacement reports one page crawled, two
    indexable pages and minus one page that is not indexable. *)
Theorem C3_negative_count_published :
  exists c v,
    run (mount 0 [scored_page score_0_9; scored_page score_0_9])
      [TimerFires 300; SetCrawlData 400 [bare_page]] = Some c /\
    last (published c) = Some v /\
    totaPagesCrawled v = 1 /\
    indexablePages v = 2 /\
    notIndexablePages v = -1.
Proof.
  eexists. eexists. split; [vm_compute; reflexivity|].
  split; [vm_compute; reflexivity|]. repeat split.
Qed.

(** ** Clearing history *)

Lemma reducer_keeps_links state action x :
  (x ∈ internalLinks state -> x ∈ internalLinks (reducer state action)) /\
  (x ∈ externalLinks state -> x ∈ externalLinks (reducer state action)).
Proof.
  destruct (reducer_cases state action) as [-> | ->]; [|tauto].
  rewrite elem_of_fold_internal, elem_of_fold_external. tauto.
Qed.

Lemma step_keeps_links c e c' x :
  step c e = Some c' ->
  (x ∈ internalLinks (state c) -> x ∈ internalLinks (state c')) /\
  (x ∈ externalLinks (state c) -> x ∈ externalLinks (state c')).
Proof.
  intros Hstep. destruct e as [t data|t|t]; simpl in Hstep.
  - destruct (mounted c && (now c <=? t)); [|discriminate].
    injection Hstep as <-. simpl. tauto.
  - destruct (pending c) as [[due args]|]; [|discriminate].
    destruct ((due <=? t) && (now c <=? t)); [|discriminate].
    injection Hstep as <-. exact (reducer_keeps_links (state c) (UPDATE_DATA args) x).
  - destruct (mounted c && (now c <=? t)); [|discriminate].
    injection Hstep as <-. simpl. tauto.
Qed.

(** C6, counterexample. After a page with the internal link ["/a"] has
    been folded and published, [clearChatHistory] leaves the link in the
    aggregation state and publishes nothing: the last published view is
    still the one of the fold, which is not all zero. *)
Lemma C6_clearChatHistory_resets_nothing :
  exists c,
    run (mount 0 [page ["/a"] [] score_0_9]) [TimerFires 300] = Some c /\
    internalLinks
      (state (summary (App_clearChatHistory
         {| chat := {| messages := []; localStorage := ∅; toasts := [] |};
            summary := c |}))) = ["/a"] /\
    published
      (summary (App_clearChatHistory
         {| chat := {| messages := []; localStorage := ∅; toasts := [] |};
            summary := c |})) = published c /\
    last (published c) =
      Some {| totaPagesCrawled := 1; totalInternalLinks := 1;
              totalExternalLinks := 0; totalLinksFound := 1;
              notIndexablePages := 0; indexablePages := 1 |}.
Proof.
  eexists. split; [vm_compute; reflexivity|]. repeat split.
Qed.

(** C6, as the code has it. The source has no operation that resets the
    aggregation state: no action of the reducer and no event of the
    component (a change of the snapshot, the debounced fold, the unmount)
    removes a URL from a link set, so a state that holds a URL is never
    taken back to the empty state; and [clearChatHistory], the only
    function of the source that clears a history, empties the chat
    messages and removes their entry from the local storage, and leaves the
    summary component, with its state and its published views, as it
    was. *)
Theorem C6_history_is_never_reset :
  (forall a,
     summary (App_clearChatHistory a) = summary a /\
     messages (chat (App_clearChatHistory a)) = [] /\
     localStorage (chat (App_clearChatHistory a)) !! LOCAL_STORAGE_KEY = None) /\
  (forall state action x,
     (x ∈ internalLinks state -> x ∈ internalLinks (reducer state action)) /\
     (x ∈ externalLinks state -> x ∈ externalLinks (reducer state action))) /\
  (forall c e c' x,
     step c e = Some c' ->
     (x ∈ internalLinks (state c) -> x ∈ internalLinks (state c')) /\
     (x ∈ externalLinks (state c) -> x ∈ externalLinks (state c'))) /\
  (forall state action x,
     x ∈ internalLinks state \/ x ∈ externalLinks state ->
     reducer state action <> initialState) /\
  (forall c e c' x,
     x ∈ internalLinks (state c) \/ x ∈ externalLinks (state c) ->
     step c e = Some c' ->
     state c' <> initialState).
Proof.
  assert (Hkeep : forall st x,
    x ∈ internalLinks st \/ x ∈ externalLinks st -> st <> initialState).
  { intros st x [Hx | Hx] ->; simpl in Hx; apply elem_of_nil in Hx; exact Hx. }
  split; [|split; [|split; [|split]]].
  - intros a. split; [reflexivity|]. split; [reflexivity|].
    simpl. apply lookup_delete_eq.
  - apply reducer_keeps_links.
  - intros c e c' x. apply step_keeps_links.
  - intros state action x Hx. apply (Hkeep _ x).
    destruct (reducer_keeps_links state action x) as [Hi He]. tauto.
  - intros c e c' x Hx Hstep. apply (Hkeep _ x).
    destruct (step_keeps_links c e c' x Hstep) as [Hi He]. tauto.
Qed.

(** ** The percentages of the panel *)

Section Rounding.

Variable rnd : Q -> Q.
Hypothesis rnd_binary64 : binary64_rounding rnd.

Lemma rnd_error (y : Q) :
  ((1 # 1099511627776) <= Qabs y -> Qabs y <= 1099511627776 ->
   - (Qabs y * unit_roundoff) <= rnd y - y <= Qabs y * unit_roundoff)%Q.
Proof.
  destruct rnd_binary64 as [_ H]. intros Hlo Hhi. apply Qabs_Qle_condition.
  specialize (H y). unfold Qdiv in H.
  change (/ inject_Z (2 ^ 53))%Q with unit_roundoff in H.
  change (inject_Z (2 ^ 40)) with (1099511627776 # 1)%Q in H.
  change (/ (1099511627776 # 1))%Q with (1 # 1099511627776)%Q in H.
  apply H; lra.
Qed.

Lemma rnd_positive (y : Q) :
  ((1 # 1099511627776) <= y -> y <= 1099511627776 ->
   y - y * unit_roundoff <= rnd y <= y + y * unit_roundoff)%Q.
Proof.
  intros Hlo Hhi.
  assert (Hy : (Qabs y == y)%Q) by (apply Qabs_pos; lra).
  pose proof (rnd_error y) as H. rewrite Hy in H. unfold unit_roundoff in *. lra.
Qed.

Lemma rnd_negative (y : Q) :
  ((1 # 1099511627776) <= - y -> - y <= 1099511627776 ->
   - y - (- y) * unit_roundoff <= - rnd y <= - y + (- y) * unit_roundoff)%Q.
Proof.
  intros Hlo Hhi.
  assert (Hy : (Qabs y == - y)%Q) by (apply Qabs_neg; lra).
  pose proof (rnd_error y) as H. rewrite Hy in H. unfold unit_roundoff in *. lra.
Qed.

(** The rounded quotient times one hundred, rounded, of a positive part:
    it is positive, and times the whole it is less than one half away from
    one hundred times the part. *)
Lemma two_roundings_positive (P W : Q) :
  (1 <= P -> P <= 8589934592 -> 1 <= W -> W <= 8589934592 ->
   0 < rnd (rnd (P / W) * 100) /\
   rnd (rnd (P / W) * 100) * W - 100 * P < 1 # 2 /\
   100 * P - rnd (rnd (P / W) * 100) * W < 1 # 2)%Q.
Proof.
  intros HP1 HP2 HW1 HW2.
  set (x := (P / W)%Q).
  assert (HxW : (x * W == P)%Q) by (unfold x; field; lra).
  assert (Hx1 : ((1 # 8589934592) <= x)%Q).
  { unfold x. apply Qle_shift_div_l; lra. }
  assert (Hx2 : (x <= 8589934592)%Q).
  { unfold x. apply Qle_shift_div_r; lra. }
  destruct (rnd_positive x) as [Ha Hb]; [lra | lra |].
  unfold unit_roundoff in *.
  destruct (rnd_positive (rnd x * 100)) as [Hc Hd]; [lra | lra |].
  unfold unit_roundoff in *.
  set (r := rnd (rnd x * 100)%Q) in *. split; [lra|].
  assert (Hup : (r <= x * (100 + (1 # 10000000000000)))%Q) by lra.
  assert (Hdn : (x * (100 - (1 # 10000000000000)) <= r)%Q) by lra.
  apply (Qmult_le_compat_r _ _ W) in Hup; [|lra].
  apply (Qmult_le_compat_r _ _ W) in Hdn; [|lra].
  assert (E1 : (x * (100 + (1 # 10000000000000)) * W ==
                P * (100 + (1 # 10000000000000)))%Q).
  { rewrite <- HxW. ring. }
  assert (E2 : (x * (100 - (1 # 10000000000000)) * W ==
                P * (100 - (1 # 10000000000000)))%Q).
  { rewrite <- HxW. ring. }
  rewrite E1 in Hup. rewrite E2 in Hdn. split; lra.
Qed.

(** The same for a negative part [N] of magnitude [P]. *)
Lemma two_roundings_negative (N P W : Q) :
  (N == - P ->
   1 <= P -> P <= 8589934592 -> 1 <= W -> W <= 8589934592 ->
   rnd (rnd (N / W) * 100) < 0 /\
   - rnd (rnd (N / W) * 100) * W - 100 * P < 1 # 2 /\
   100 * P - - rnd (rnd (N / W) * 100) * W < 1 # 2)%Q.
Proof.
  intros HN HP1 HP2 HW1 HW2.
  set (x := (N / W)%Q).
  assert (HxW : (- x * W == P)%Q) by (unfold x; rewrite HN; field; lra).
  assert (Hx : (- x == P / W)%Q) by (unfold x; rewrite HN; field; lra).
  assert (Hx1 : ((1 # 8589934592) <= - x)%Q).
  { rewrite Hx. apply Qle_shift_div_l; lra. }
  assert (Hx2 : (- x <= 8589934592)%Q).
  { rewrite Hx. apply Qle_shift_div_r; lra. }
  destruct (rnd_negative x) as [Ha Hb]; [lra | lra |].
  unfold unit_roundoff in *.
  destruct (rnd_negative (rnd x * 100)) as [Hc Hd]; [lra | lra |].
  unfold unit_roundoff in *.
  set (r := rnd (rnd x * 100)%Q) in *. split; [lra|].
  assert (Hup : (- r <= - x * (100 + (1 # 10000000000000)))%Q) by lra.
  assert (Hdn : (- x * (100 - (1 # 10000000000000)) <= - r)%Q) by lra.
  apply (Qmult_le_compat_r _ _ W) in Hup; [|lra].
  apply (Qmult_le_compat_r _ _ W) in Hdn; [|lra].
  assert (E1 : (- x * (100 + (1 # 10000000000000)) * W ==
                P * (100 + (1 # 10000000000000)))%Q).
  { rewrite <- HxW. ring. }
  assert (E2 : (- x * (100 - (1 # 10000000000000)) * W ==
                P * (100 - (1 # 10000000000000)))%Q).
  { rewrite <- HxW. ring. }
  rewrite E1 in Hup. rewrite E2 in Hdn. split; lra.
Qed.

End Rounding.

(** What [toFixed(0)] makes of a magnitude [a] that, times [w], is less
    than one half away from [100 * p]: an integer at most one half away
    from [100 * p / w]. *)
Lemma nearest_of_floor (a : Q) (p w : Z) :
  (0 <= a)%Q -> 0 < w ->
  (a * inject_Z w - 100 * inject_Z p < 1 # 2)%Q ->
  (100 * inject_Z p - a * inject_Z w < 1 # 2)%Q ->
  0 <= toFixed0_digits a /\
  2 * Z.abs (toFixed0_digits a * w - 100 * p) <= w.
Proof.
  intros Ha Hw Hup Hdn. unfold toFixed0_digits.
  set (n := Qfloor (a + (1 # 2))).
  pose proof (Qfloor_le (a + (1 # 2))) as Hlo.
  pose proof (Qlt_floor (a + (1 # 2))) as Hhi.
  fold n in Hlo, Hhi. rewrite inject_Z_plus in Hhi.
  change (inject_Z 1) with 1%Q in Hhi.
  assert (HW : (0 < inject_Z w)%Q)
    by (change 0%Q with (inject_Z 0); rewrite <- Zlt_Qlt; exact Hw).
  split.
  - assert (H0 : (0 <= a + (1 # 2))%Q) by lra.
    change 0 with (Qfloor 0). apply Qfloor_resp_le. exact H0.
  - assert (H1 : ((inject_Z n - (1 # 2)) * inject_Z w <= a * inject_Z w)%Q).
    { apply Qmult_le_compat_r; lra. }
    assert (H2 : (a * inject_Z w <= (inject_Z n + (1 # 2)) * inject_Z w)%Q).
    { apply Qmult_le_compat_r; lra. }
    assert (G1 : (inject_Z (2 * (n * w) + - w + - (200 * p)) < inject_Z 1)%Q).
    { rewrite !inject_Z_plus, !inject_Z_opp, !inject_Z_mult.
      change (inject_Z 2) with 2%Q. change (inject_Z 200) with 200%Q.
      change (inject_Z 1) with 1%Q. lra. }
    assert (G2 : (inject_Z (200 * p + - (2 * (n * w)) + - w) < inject_Z 1)%Q).
    { rewrite !inject_Z_plus, !inject_Z_opp, !inject_Z_mult.
      change (inject_Z 2) with 2%Q. change (inject_Z 200) with 200%Q.
      change (inject_Z 1) with 1%Q. lra. }
    rewrite <- Zlt_Qlt in G1, G2. lia.
Qed.

Lemma inject_Z_bounds (z : Z) :
  1 <= z <= 2 ^ 33 -> (1 <= inject_Z z /\ inject_Z z <= 8589934592)%Q.
Proof.
  intros [H1 H2]. split.
  - change 1%Q with (inject_Z 1). rewrite <- Zle_Qle. exact H1.
  - change 8589934592%Q with (inject_Z (2 ^ 33)). rewrite <- Zle_Qle. exact H2.
Qed.

(** A computed percentage shows the whole percent nearest to the ratio. *)
Lemma percent_nearest (rnd : Q -> Q) (part whole : Z) :
  binary64_rounding rnd ->
  0 < whole <= 2 ^ 33 -> Z.abs part <= 2 ^ 33 ->
  shows_nearest_percent (percent rnd part whole) part whole.
Proof.
  intros Hr Hw Hp. unfold shows_nearest_percent, percent, divide.
  replace (whole =? 0) with false by (symmetry; apply Z.eqb_neq; lia).
  cbn [times100 Number_toFixed0].
  destruct (inject_Z_bounds whole) as [HW1 HW2]; [lia|].
  set (r := rnd (rnd (inject_Z part / inject_Z whole) * 100)%Q).
  destruct (Z.lt_trichotomy part 0) as [Hneg | [-> | Hpos]].
  - (* a negative part: the sign, then the digits of the magnitude *)
    destruct (inject_Z_bounds (- part)) as [HP1 HP2]; [lia|].
    destruct (two_roundings_negative rnd Hr (inject_Z part) (inject_Z (- part))
                (inject_Z whole)) as (Hr0 & Hup & Hdn); try assumption.
    { rewrite inject_Z_opp. ring. }
    fold r in Hr0, Hup, Hdn.
    destruct (nearest_of_floor (- r) (- part) whole) as [Hn0 Hn]; [lra | lia | | |].
    { exact Hup. } { exact Hdn. }
    exists (toFixed0_digits (- r)). split; [exact Hn0|]. split.
    + unfold toFixed0. assert (Hb : Qle_bool 0 r = false).
      { apply not_true_is_false. rewrite Qle_bool_iff. lra. }
      rewrite Hb. apply Z.ltb_lt in Hneg. rewrite Hneg. reflexivity.
    + replace (Z.abs part) with (- part) by lia. exact Hn.
  - (* no part: zero is exact *)
    destruct Hr as [Hzero _].
    assert (Hr0 : (r == 0)%Q).
    { unfold r. apply Hzero. rewrite (Hzero (inject_Z 0 / inject_Z whole)%Q).
      - ring.
      - unfold Qdiv. ring. }
    exists 0. split; [lia|]. split; [|simpl; lia].
    unfold toFixed0, toFixed0_digits.
    assert (Hb : Qle_bool 0 r = true) by (rewrite Qle_bool_iff; lra).
    rewrite Hb.
    assert (Hf : Qfloor (r + (1 # 2)) = 0).
    { change 0 with (Qfloor (1 # 2)). apply Qfloor_comp. lra. }
    rewrite Hf. reflexivity.
  - (* a positive part *)
    destruct (inject_Z_bounds part) as [HP1 HP2]; [lia|].
    destruct (two_roundings_positive rnd Hr (inject_Z part) (inject_Z whole))
      as (Hr0 & Hup & Hdn); try assumption.
    fold r in Hr0, Hup, Hdn.
    destruct (nearest_of_floor r part whole) as [Hn0 Hn]; [lra | lia | | |].
    { exact Hup. } { exact Hdn. }
    exists (toFixed0_digits r). split; [exact Hn0|]. split.
    + unfold toFixed0. assert (Hb : Qle_bool 0 r = true).
      { rewrite Qle_bool_iff. lra. }
      rewrite Hb. assert (Hs : (part <? 0) = false) by (apply Z.ltb_ge; lia).
      rewrite Hs. reflexivity.
    + replace (Z.abs part) with part by lia. exact Hn.
Qed.

(** Exact arithmetic is one such rounding. *)
Lemma exact_rounding : binary64_rounding (fun x => x).
Proof.
  split; [auto|]. intros y _ _.
  assert (H0 : (Qabs (y - y) == 0)%Q).
  { assert (E : (y - y == 0)%Q) by ring. rewrite E. reflexivity. }
  rewrite H0. apply Qle_shift_div_l; [reflexivity|].
  rewrite Qmult_0_l. apply Qabs_nonneg.
Qed.

(** The division alone, at a zero denominator, shows no percentage. *)
Lemma percent_by_zero (rnd : Q -> Q) (part : Z) :
  percent rnd part 0 =
  if part =? 0 then "NaN%" else if 0 <? part then "Infinity%" else "-Infinity%".
Proof.
  unfold percent, divide. simpl (0 =? 0).
  destruct (part =? 0); [reflexivity|]. destruct (0 <? part); reflexivity.
Qed.

Lemma percent_by_zero_undefined (rnd : Q -> Q) (part : Z) :
  undefined_division (percent rnd part 0).
Proof.
  rewrite percent_by_zero. unfold undefined_division.
  destruct (part =? 0); [auto|]. destruct (0 <? part); auto.
Qed.

(** C8. The panel of a state and a snapshot has six rows with the values
    of that state and snapshot.  Each computed row (internal links and
    external links over the links found, indexable and not indexable pages
    over the pages crawled) shows the whole percent nearest to
    part / whole * 100; when its denominator is zero it shows exactly
    ["0%"], where the division alone would show ["NaN%"] or an infinity.
    The quotient and the product may be rounded as binary64 arithmetic
    rounds them; the arrays are JavaScript arrays, of fewer than [2^32]
    elements, and the counter is within that range. *)
Theorem C8_percentages_nearest_zero_guarded
  (rnd : Q -> Q) (state : State) (stableCrawlData : list CrawlDataItem) :
  binary64_rounding rnd ->
  len (internalLinks state) < MAX_ARRAY_LENGTH ->
  len (externalLinks state) < MAX_ARRAY_LENGTH ->
  len stableCrawlData < MAX_ARRAY_LENGTH ->
  0 <= totalIndexablePages state < MAX_ARRAY_LENGTH ->
  panel_percentages rnd state stableCrawlData
    (summaryData rnd state stableCrawlData).
Proof.
  unfold MAX_ARRAY_LENGTH. intros Hr Hi He Hd Hc.
  assert (Hli : 0 <= len (internalLinks state)) by (unfold len; lia).
  assert (Hle : 0 <= len (externalLinks state)) by (unfold len; lia).
  assert (Hld : 0 <= len stableCrawlData) by (unfold len; lia).
  unfold panel_percentages, summaryData.
  do 6 eexists. split; [reflexivity|]. cbn [percentage value].
  do 9 (split; [reflexivity|]). unfold nonzero.
  split; [|split; [|split]].
  - intros H0. rewrite H0. simpl.
    repeat split; apply percent_by_zero_undefined.
  - intros H0. apply Z.eqb_neq in H0. rewrite H0. simpl negb. cbv iota.
    split; apply percent_nearest; try assumption; lia.
  - intros H0. rewrite H0. simpl.
    repeat split; apply percent_by_zero_undefined.
  - intros H0. apply Z.eqb_neq in H0. rewrite H0. simpl negb. cbv iota.
    split; apply percent_nearest; try assumption; lia.
Qed.

(** C8 at three pages, one of them indexable, with two internal links and
    one external link, in exact arithmetic; and at the empty state and
    snapshot, where both denominators are zero. *)
Lemma C8_percentages_witness :
  map percentage
    (summaryData (fun x => x)
       (fold initialState [page ["/a"; "/b"] ["/c"] score_0_9; bare_page; bare_page])
       [page ["/a"; "/b"] ["/c"] score_0_9; bare_page; bare_page]) =
    ["100%"; "100%"; "67%"; "33%"; "33%"; "67%"] /\
  panel_percentages (fun x => x)
    (fold initialState [page ["/a"; "/b"] ["/c"] score_0_9; bare_page; bare_page])
    [page ["/a"; "/b"] ["/c"] score_0_9; bare_page; bare_page]
    (summaryData (fun x => x)
       (fold initialState [page ["/a"; "/b"] ["/c"] score_0_9; bare_page; bare_page])
       [page ["/a"; "/b"] ["/c"] score_0_9; bare_page; bare_page]) /\
  map percentage (summaryData (fun x => x) initialState []) =
    ["100%"; "100%"; "0%"; "0%"; "0%"; "0%"] /\
  panel_percentages (fun x => x) initialState []
    (summaryData (fun x => x) initialState []).
Proof.
  split; [vm_compute; reflexivity|]. split.
  - apply (C8_percentages_nearest_zero_guarded (fun x => x)).
    + exact exact_rounding.
    + vm_compute; reflexivity.
    + vm_compute; reflexivity.
    + vm_compute; reflexivity.
    + split; vm_compute; [discriminate | reflexivity].
  - split; [vm_compute; reflexivity|].
    apply (C8_percentages_nearest_zero_guarded (fun x => x)).
    + exact exact_rounding.
    + vm_compute; reflexivity.
    + vm_compute; reflexivity.
    + vm_compute; reflexivity.
    + split; vm_compute; [discriminate | reflexivity].
Defined.

(** * Further properties of the reducer *)

(** X1. After a fold neither link array holds a URL twice, whatever the
    state and the batch; from the initial state the length of each array is
    the number of distinct URLs the batch refers to. *)
Theorem X1_fold_deduplicates :
  (forall state batch,
     NoDup (internalLinks (fold state batch)) /\
     NoDup (externalLinks (fold state batch))) /\
  (forall batch,
     len (internalLinks (fold initialState batch)) =
       Z.of_nat (size (list_to_set (links_of internal_links_of batch) : gset string)) /\
     len (externalLinks (fold initialState batch)) =
       Z.of_nat (size (list_to_set (links_of external_links_of batch) : gset string))).
Proof.
  assert (Hsize : forall l : list string,
    len (foldl JS.Set_add (JS.Set_new []) l) =
    Z.of_nat (size (list_to_set l : gset string))).
  { intros l. unfold len. f_equal.
    rewrite <- (size_list_to_set (C := gset string) (foldl JS.Set_add (JS.Set_new []) l))
      by apply NoDup_adds, NoDup_Set_new.
    f_equal. apply set_eq. intros x.
    rewrite !elem_of_list_to_set, elem_of_adds, elem_of_Set_new, elem_of_nil. tauto. }
  split.
  - intros state batch. destruct (fold_ok state batch) as [Hi He _ _]. auto.
  - intros batch. rewrite fold_spec. simpl. split; apply Hsize.
Qed.

(** X2. The indexable-page count of a fold lies between zero and the length
    of the batch, so the view built from a fold and the snapshot it ran
    over has no negative field and splits the pages crawled into indexable
    and not indexable ones. *)
Theorem X2_fold_count_within_batch (state : State) (data : list CrawlDataItem) :
  0 <= totalIndexablePages (fold state data) <= len data /\
  nonnegative_view (summary_of (fold state data) data) /\
  indexablePages (summary_of (fold state data) data) +
    notIndexablePages (summary_of (fold state data) data) =
    totaPagesCrawled (summary_of (fold state data) data).
Proof.
  pose proof (indexable_count_bounds data) as Hb.
  split; [rewrite fold_spec; exact Hb|].
  split; [apply view_after_fold_nonnegative|].
  unfold summary_of. simpl. lia.
Qed.

Lemma elem_of_links_of field batch x :
  x ∈ links_of field batch <->
  exists item, item ∈ batch /\ x ∈ default [] (field item).
Proof.
  unfold links_of. rewrite list_elem_of_bind. split; intros (item & H1 & H2); eauto.
Qed.

(** X3. The order of the records of a batch does not matter to the count
    and matters to the link arrays only as an order: two batches with the
    same records give the same count and link arrays with the same URLs. *)
Theorem X3_fold_order_of_records (state : State) (batch batch' : list CrawlDataItem) :
  batch ≡ₚ batch' ->
  totalIndexablePages (fold state batch) = totalIndexablePages (fold state batch') /\
  internalLinks (fold state batch) ≡ₚ internalLinks (fold state batch') /\
  externalLinks (fold state batch) ≡ₚ externalLinks (fold state batch').
Proof.
  intros Hperm.
  assert (Hmem : forall field x,
    x ∈ links_of field batch <-> x ∈ links_of field batch').
  { intros field x. rewrite !elem_of_links_of.
    split; intros (item & Hin & Hx); exists item; split; try assumption.
    - rewrite <- Hperm. exact Hin.
    - rewrite Hperm. exact Hin. }
  destruct (fold_ok state batch) as [Hi He _ _].
  destruct (fold_ok state batch') as [Hi' He' _ _].
  split; [|split].
  - rewrite !fold_spec. simpl. unfold indexable_count, len.
    rewrite Hperm. reflexivity.
  - apply NoDup_Permutation; try assumption. intros x.
    rewrite !elem_of_fold_internal, Hmem. reflexivity.
  - apply NoDup_Permutation; try assumption. intros x.
    rewrite !elem_of_fold_external, Hmem. reflexivity.
Qed.

Lemma X3_fold_order_of_records_witness :
  [page ["/a"] ["/c"] score_0_9; page ["/b"] [] score_0_5]
    ≡ₚ [page ["/b"] [] score_0_5; page ["/a"] ["/c"] score_0_9] /\
  totalIndexablePages
    (fold initialState [page ["/a"] ["/c"] score_0_9; page ["/b"] [] score_0_5]) =
  totalIndexablePages
    (fold initialState [page ["/b"] [] score_0_5; page ["/a"] ["/c"] score_0_9]).
Proof.
  split; [apply Permutation_swap|].
  apply (X3_fold_order_of_records initialState), Permutation_swap.
Defined.

(** X4. A record without link arrays and without an indexable score
    contributes nothing: the fold of a batch is the fold of the batch
    without that record. *)
Theorem X4_fold_skips_empty_records
  (state : State) (before after : list CrawlDataItem) (item : CrawlDataItem) :
  default [] (internal_links_of item) = [] ->
  default [] (external_links_of item) = [] ->
  ~ indexable item ->
  fold state (before ++ item :: after) = fold state (before ++ after).
Proof.
  intros Hi He Hs. rewrite !fold_spec.
  rewrite !links_of_app, !links_of_cons, Hi, He. simpl.
  rewrite !indexable_count_app, indexable_count_cons.
  rewrite decide_False by exact Hs. reflexivity.
Qed.

Lemma X4_fold_skips_empty_records_witness :
  fold initialState ([page ["/a"] [] score_0_9] ++ bare_page :: [page ["/b"] [] score_0_5]) =
  fold initialState ([page ["/a"] [] score_0_9] ++ [page ["/b"] [] score_0_5]).
Proof.
  apply X4_fold_skips_empty_records; [reflexivity | reflexivity |].
  unfold indexable. simpl. discriminate.
Defined.

(** X5. Folding the snapshot that was just folded changes nothing: a second
    recomputation over an unchanged snapshot gives the same state. *)
Theorem X5_refold_same_snapshot (state : State) (snapshot : list CrawlDataItem) :
  fold (fold state snapshot) snapshot = fold state snapshot.
Proof.
  pose proof (fold_after_prefix state snapshot []) as H.
  rewrite app_nil_r in H. exact H.
Qed.

(** * Further properties of the component *)

Lemma summary_of_consistent state data :
  0 <= totalIndexablePages state -> view_consistent (summary_of state data).
Proof. unfold view_consistent, summary_of, len. simpl. lia. Qed.

Lemma step_published c e c' :
  component_ok c -> step c e = Some c' ->
  published c' = published c \/
  published c' = published c ++ [summary_of (state c') (crawlData c')].
Proof.
  intros [Hst _ _] Hstep.
  pose proof (ok_processing _ (reachable_ok _ Hst)) as Hp.
  destruct e as [t data|t|t]; simpl in Hstep.
  - destruct (mounted c && (now c <=? t)); [|discriminate].
    injection Hstep as <-. right. simpl. apply publish_effect_ok, Hp.
  - destruct (pending c) as [[due args]|]; [|discriminate].
    destruct ((due <=? t) && (now c <=? t)); [|discriminate].
    injection Hstep as <-. right. simpl. apply publish_effect_ok. reflexivity.
  - destruct (mounted c && (now c <=? t)); [|discriminate].
    injection Hstep as <-. left. reflexivity.
Qed.

(** An event that publishes nothing changes neither state nor snapshot. *)
Lemma step_silent c e c' :
  component_ok c -> step c e = Some c' -> published c' = published c ->
  state c' = state c /\ crawlData c' = crawlData c.
Proof.
  intros [Hst _ _] Hstep Hpub.
  pose proof (ok_processing _ (reachable_ok _ Hst)) as Hp.
  destruct e as [t data|t|t]; simpl in Hstep.
  - destruct (mounted c && (now c <=? t)); [|discriminate].
    injection Hstep as <-. simpl in Hpub.
    rewrite publish_effect_ok in Hpub by exact Hp.
    apply (f_equal length) in Hpub. rewrite length_app in Hpub. simpl in Hpub. lia.
  - destruct (pending c) as [[due args]|]; [|discriminate].
    destruct ((due <=? t) && (now c <=? t)); [|discriminate].
    injection Hstep as <-. simpl in Hpub.
    rewrite publish_effect_ok in Hpub by reflexivity.
    apply (f_equal length) in Hpub. rewrite length_app in Hpub. simpl in Hpub. lia.
  - destruct (mounted c && (now c <=? t)); [|discriminate].
    injection Hstep as <-. auto.
Qed.

Lemma run_last_published events : forall c c',
  component_ok c ->
  last (published c) = Some (summary_of (state c) (crawlData c)) ->
  run c events = Some c' ->
  last (published c') = Some (summary_of (state c') (crawlData c')).
Proof.
  induction events as [|e events IH]; intros c c' Hc Hlast Hrun; simpl in Hrun.
  - injection Hrun as <-. exact Hlast.
  - destruct (step c e) as [c1|] eqn:Hstep; [|discriminate].
    apply (IH c1 c' (step_ok _ _ _ Hc Hstep)); [|exact Hrun].
    destruct (step_published _ _ _ Hc Hstep) as [Heq | Heq].
    + destruct (step_silent _ _ _ Hc Hstep Heq) as [-> ->]. rewrite Heq. exact Hlast.
    + rewrite Heq. apply last_snoc.
Qed.

(** X6. In every run of the component the view published last is the view
    of the current state and the current snapshot: the store never holds a
    summary older than what the panel shows. *)
Theorem X6_store_holds_current_view
  (t : Z) (data : list CrawlDataItem) (events : list Event) (c : Summary) :
  run (mount t data) events = Some c ->
  last (published c) = Some (summary_of (state c) (crawlData c)).
Proof.
  apply run_last_published; [apply mount_ok | reflexivity].
Qed.

Lemma X6_store_holds_current_view_witness :
  exists c,
    run (mount 0 [page ["/a"] [] score_0_9])
      [TimerFires 300; SetCrawlData 400 [bare_page]; Unmount 500] = Some c /\
    last (published c) = Some (summary_of (state c) (crawlData c)).
Proof.
  eexists. split; [vm_compute; reflexivity|].
  apply (X6_store_holds_current_view 0 [page ["/a"] [] score_0_9]
           [TimerFires 300; SetCrawlData 400 [bare_page]; Unmount 500]).
  vm_compute; reflexivity.
Defined.

Lemma run_published_consistent events : forall c c',
  component_ok c -> Forall view_consistent (published c) ->
  run c events = Some c' -> Forall view_consistent (published c').
Proof.
  induction events as [|e events IH]; intros c c' Hc Hall Hrun; simpl in Hrun.
  - injection Hrun as <-. exact Hall.
  - destruct (step c e) as [c1|] eqn:Hstep; [|discriminate].
    pose proof (step_ok _ _ _ Hc Hstep) as Hc1.
    apply (IH c1 c' Hc1); [|exact Hrun].
    destruct (step_published _ _ _ Hc Hstep) as [-> | ->]; [exact Hall|].
    apply Forall_app. split; [exact Hall|]. apply Forall_singleton.
    apply summary_of_consistent, (ok_count _ (reachable_ok _ (ok_state _ Hc1))).
Qed.

(** X7. Every view the component ever publishes keeps the two sums (links
    found = internal + external, pages crawled = indexable + not indexable)
    and has non-negative lengths and counts. *)
Theorem X7_published_views_consistent
  (t : Z) (data : list CrawlDataItem) (events : list Event) (c : Summary) :
  run (mount t data) events = Some c ->
  Forall view_consistent (published c).
Proof.
  apply run_published_consistent; [apply mount_ok|].
  simpl. apply Forall_singleton, summary_of_consistent. simpl. lia.
Qed.

Lemma X7_published_views_consistent_witness :
  exists c,
    run (mount 0 [page ["/a"] ["/b"] score_0_9; bare_page])
      [TimerFires 300; SetCrawlData 400 []] = Some c /\
    Forall view_consistent (published c).
Proof.
  eexists. split; [vm_compute; reflexivity|].
  apply (X7_published_views_consistent 0 [page ["/a"] ["/b"] score_0_9; bare_page]
           [TimerFires 300; SetCrawlData 400 []]).
  vm_compute; reflexivity.
Defined.

(** X8. Unmounting cancels the armed fold and ends the run: it changes
    neither the state nor what was published, and after it no event is
    accepted, so no fold runs and nothing is published for a component
    that is gone. *)
Theorem X8_unmount_is_final (c : Summary) (t : Z) (c' : Summary) :
  step c (Unmount t) = Some c' ->
  pending c' = None /\ state c' = state c /\ published c' = published c /\
  dispatched c' = dispatched c /\
  (forall e, step c' e = None) /\
  (forall events c'', run c' events = Some c'' -> events = [] /\ c'' = c').
Proof.
  intros Hstep. simpl in Hstep.
  destruct (mounted c && (now c <=? t)); [|discriminate].
  injection Hstep as <-. simpl.
  assert (Hno : forall e,
    step {| crawlData := crawlData c; state := state c; pending := None;
            mounted := false; now := t; published := published c;
            dispatched := dispatched c |} e = None).
  { intros [t' d'|t'|t']; reflexivity. }
  do 4 (split; [reflexivity|]). split; [exact Hno|].
  intros events c'' Hrun. destruct events as [|e events].
  - simpl in Hrun. injection Hrun as <-. auto.
  - simpl in Hrun. rewrite Hno in Hrun. discriminate.
Qed.

Lemma X8_unmount_is_final_witness :
  step (mount 0 [bare_page]) (Unmount 100) =
    Some {| crawlData := [bare_page]; state := initialState; pending := None;
            mounted := false; now := 100;
            published := published (mount 0 [bare_page]); dispatched := [] |} /\
  forall e,
    step {| crawlData := [bare_page]; state := initialState; pending := None;
            mounted := false; now := 100;
            published := published (mount 0 [bare_page]); dispatched := [] |} e = None.
Proof.
  split; [reflexivity|].
  apply (X8_unmount_is_final (mount 0 [bare_page]) 100). reflexivity.
Defined.

Lemma step_folds_bounded c e c' :
  step c e = Some c' ->
  (length (dispatched c') + armed c' <=
   length (dispatched c) + armed c + length (signals [e]))%nat.
Proof.
  intros Hstep. destruct e as [t data|t|t]; simpl in Hstep.
  - destruct (mounted c && (now c <=? t)); [|discriminate].
    injection Hstep as <-. unfold armed. simpl. destruct (pending c); lia.
  - unfold armed. destruct (pending c) as [[due args]|]; [|discriminate].
    destruct ((due <=? t) && (now c <=? t)); [|discriminate].
    injection Hstep as <-. simpl. rewrite length_app. simpl. lia.
  - destruct (mounted c && (now c <=? t)); [|discriminate].
    injection Hstep as <-. unfold armed. simpl. destruct (pending c); lia.
Qed.

Lemma run_folds_bounded events : forall c c',
  run c events = Some c' ->
  (length (dispatched c') + armed c' <=
   length (dispatched c) + armed c + length (signals events))%nat.
Proof.
  induction events as [|e events IH]; intros c c' Hrun; simpl in Hrun.
  - injection Hrun as <-. simpl. lia.
  - destruct (step c e) as [c1|] eqn:Hstep; [|discriminate].
    pose proof (step_folds_bounded _ _ _ Hstep) as H1.
    pose proof (IH c1 c' Hrun) as H2.
    rewrite signals_cons, length_app. lia.
Qed.

(** X9. The debounce only coalesces: in every run the folds that have run,
    plus the one that may be armed, are at most as many as the signals, the
    mount counting as one. *)
Theorem X9_folds_at_most_signals
  (t : Z) (data : list CrawlDataItem) (events : list Event) (c : Summary) :
  run (mount t data) events = Some c ->
  (length (dispatched c) + armed c <=
   1 + length (signals events))%nat.
Proof.
  intros Hrun. pose proof (run_folds_bounded _ _ _ Hrun) as H.
  unfold armed in H at 2. simpl in H. lia.
Qed.

Lemma X9_folds_at_most_signals_witness :
  exists c,
    run (mount 0 [bare_page])
      [SetCrawlData 50 []; SetCrawlData 100 [bare_page]; TimerFires 400;
       SetCrawlData 500 []] = Some c /\
    (length (dispatched c) + armed c <= 1 + 3)%nat.
Proof.
  eexists. split; [vm_compute; reflexivity|].
  apply (X9_folds_at_most_signals 0 [bare_page]
           [SetCrawlData 50 []; SetCrawlData 100 [bare_page]; TimerFires 400;
            SetCrawlData 500 []]).
  vm_compute; reflexivity.
Defined.

Lemma step_folds_ok sigs c e c' :
  folds_ok sigs c -> step c e = Some c' -> folds_ok (sigs ++ signals [e]) c'.
Proof.
  intros [Hd Ha] Hstep. destruct e as [t data|t|t]; simpl in Hstep.
  - destruct (mounted c && (now c <=? t)); [|discriminate].
    injection Hstep as <-. split; simpl.
    + intros t' d Hin. destruct (Hd t' d Hin) as (ts & Hts & Hle).
      exists ts. split; [|exact Hle]. apply elem_of_app. left. exact Hts.
    + intros due args [= <- <-]. apply elem_of_app. right.
      replace (t + wait - wait) with t by lia. left.
  - destruct (pending c) as [[due args]|] eqn:Hp; [|discriminate].
    destruct (Z.leb_spec due t) as [Hdue|]; [|discriminate].
    destruct (now c <=? t); [|discriminate].
    injection Hstep as <-. split; simpl; [|discriminate].
    rewrite app_nil_r. intros t' d Hin.
    apply elem_of_app in Hin as [Hin | Hin]; [apply Hd, Hin|].
    apply list_elem_of_singleton in Hin. injection Hin as -> ->.
    exists (due - wait). split; [apply Ha; reflexivity | lia].
  - destruct (mounted c && (now c <=? t)); [|discriminate].
    injection Hstep as <-. split; simpl; [|discriminate].
    rewrite app_nil_r. exact Hd.
Qed.

Lemma run_folds_ok events : forall sigs c c',
  folds_ok sigs c -> run c events = Some c' -> folds_ok (sigs ++ signals events) c'.
Proof.
  induction events as [|e events IH]; intros sigs c c' Hc Hrun; simpl in Hrun.
  - injection Hrun as <-. simpl. rewrite app_nil_r. exact Hc.
  - destruct (step c e) as [c1|] eqn:Hstep; [|discriminate].
    rewrite signals_cons, app_assoc.
    apply (IH _ c1 c' (step_folds_ok _ _ _ _ Hc Hstep) Hrun).
Qed.

(** X10. Every fold of a run ran over a snapshot that was signalled (by
    the mount or by a change of the snapshot), and no earlier than 300
    after that signal. *)
Theorem X10_folds_follow_signals
  (t0 : Z) (d0 : list CrawlDataItem) (events : list Event) (c : Summary)
  (t : Z) (d : list CrawlDataItem) :
  run (mount t0 d0) events = Some c ->
  (t, d) ∈ dispatched c ->
  exists ts, (ts, d) ∈ (t0, d0) :: signals events /\ ts + 300 <= t.
Proof.
  intros Hrun Hin.
  assert (H0 : folds_ok [(t0, d0)] (mount t0 d0)).
  { split; simpl.
    - intros t' d' H. apply elem_of_nil in H. contradiction.
    - intros due args [= <- <-]. replace (t0 + wait - wait) with t0 by lia. left. }
  destruct (run_folds_ok events _ _ _ H0 Hrun) as [Hd _].
  exact (Hd t d Hin).
Qed.

Lemma X10_folds_follow_signals_witness :
  exists c,
    run (mount 0 [bare_page]) [SetCrawlData 50 []; TimerFires 400] = Some c /\
    (400, []) ∈ dispatched c /\
    exists ts,
      (ts, []) ∈ (0, [bare_page]) :: signals [SetCrawlData 50 []; TimerFires 400] /\
      ts + 300 <= 400.
Proof.
  eexists. split; [vm_compute; reflexivity|].
  match goal with |- _ ∈ dispatched ?c0 /\ _ =>
    assert (Hin : (400, @nil CrawlDataItem) ∈ dispatched c0) by (simpl; left)
  end.
  split; [exact Hin|].
  eapply (X10_folds_follow_signals 0 [bare_page] [SetCrawlData 50 []; TimerFires 400]);
    [vm_compute; reflexivity | exact Hin].
Defined.

Lemma step_settled_state c e c' :
  component_ok c ->
  (mounted c = true -> pending c = None ->
   exists prior, state c = fold prior (crawlData c)) ->
  step c e = Some c' ->
  mounted c' = true -> pending c' = None ->
  exists prior, state c' = fold prior (crawlData c').
Proof.
  intros [_ Hp _] Hinv Hstep. destruct e as [t data|t|t]; simpl in Hstep.
  - destruct (mounted c && (now c <=? t)); [|discriminate].
    injection Hstep as <-. simpl. discriminate.
  - destruct (pending c) as [[due args]|] eqn:Hpend; [|discriminate].
    destruct ((due <=? t) && (now c <=? t)); [|discriminate].
    destruct (Hp due args eq_refl) as (_ & -> & _).
    injection Hstep as <-. simpl. intros _ _. exists (state c). reflexivity.
  - destruct (mounted c && (now c <=? t)); [|discriminate].
    injection Hstep as <-. simpl. discriminate.
Qed.

Lemma run_settled_state events : forall c c',
  component_ok c ->
  (mounted c = true -> pending c = None ->
   exists prior, state c = fold prior (crawlData c)) ->
  run c events = Some c' ->
  mounted c' = true -> pending c' = None ->
  exists prior, state c' = fold prior (crawlData c').
Proof.
  induction events as [|e events IH]; intros c c' Hc Hinv Hrun; simpl in Hrun.
  - injection Hrun as <-. exact Hinv.
  - destruct (step c e) as [c1|] eqn:Hstep; [|discriminate].
    apply (IH c1 c' (step_ok _ _ _ Hc Hstep)); [|exact Hrun].
    apply (step_settled_state _ _ _ Hc Hinv Hstep).
Qed.

(** X11. Once the debounced fold has run for the current snapshot (the
    component is mounted and no fold is armed), the view in the store is
    the one of that fold over that snapshot: none of its fields is
    negative and its indexable pages are at most the pages crawled. *)
Theorem X11_settled_view_nonnegative
  (t : Z) (data : list CrawlDataItem) (events : list Event) (c : Summary) :
  run (mount t data) events = Some c ->
  mounted c = true -> pending c = None ->
  exists v,
    last (published c) = Some v /\
    nonnegative_view v /\
    indexablePages v <= totaPagesCrawled v /\
    totaPagesCrawled v = len (crawlData c).
Proof.
  intros Hrun Hm Hp.
  destruct (run_settled_state events _ _ (mount_ok t data)
              ltac:(simpl; discriminate) Hrun Hm Hp) as [prior Hst].
  exists (summary_of (state c) (crawlData c)).
  split; [apply (run_last_published events _ _ (mount_ok t data) eq_refl Hrun)|].
  rewrite Hst. split; [apply view_after_fold_nonnegative|].
  pose proof (indexable_count_bounds (crawlData c)) as Hb.
  rewrite fold_spec. simpl. split; [lia | reflexivity].
Qed.

Lemma X11_settled_view_nonnegative_witness :
  exists c v,
    run (mount 0 [scored_page score_0_9; scored_page score_0_9])
      [TimerFires 300; SetCrawlData 400 [bare_page]; TimerFires 700] = Some c /\
    last (published c) = Some v /\ nonnegative_view v.
Proof.
  eexists.
  destruct (X11_settled_view_nonnegative 0
              [scored_page score_0_9; scored_page score_0_9]
              [TimerFires 300; SetCrawlData 400 [bare_page]; TimerFires 700]
              _ ltac:(vm_compute; reflexivity) eq_refl eq_refl)
    as (v & Hlast & Hnn & _).
  exists v. split; [reflexivity|]. split; assumption.
Defined.

(** * Further properties of the panel *)

(** A part between zero and the whole shows as a percentage between 0 and
    100. *)
Lemma percent_in_range (rnd : Q -> Q) (part whole : Z) :
  binary64_rounding rnd ->
  0 <= part <= whole -> 0 < whole <= 2 ^ 33 ->
  exists n, 0 <= n <= 100 /\ percent rnd part whole = pretty (Z.to_N n) +:+ "%".
Proof.
  intros Hr Hp Hw.
  destruct (percent_nearest rnd part whole Hr Hw) as (n & Hn0 & Hs & Hn); [lia|].
  exists n. split.
  - split; [exact Hn0|]. replace (Z.abs part) with part in Hn by lia. nia.
  - rewrite Hs. replace (part <? 0) with false by (symmetry; apply Z.ltb_ge; lia).
    reflexivity.
Qed.

(** X12. For a state that a fold over the current snapshot has produced,
    every row of the panel shows a whole percentage between 0% and 100%. *)
Theorem X12_settled_percentages_in_range
  (rnd : Q -> Q) (prior : State) (data : list CrawlDataItem) :
  binary64_rounding rnd ->
  len (internalLinks (fold prior data)) < MAX_ARRAY_LENGTH ->
  len (externalLinks (fold prior data)) < MAX_ARRAY_LENGTH ->
  len data < MAX_ARRAY_LENGTH ->
  Forall
    (fun row =>
       exists n, 0 <= n <= 100 /\ percentage row = pretty (Z.to_N n) +:+ "%")
    (summaryData rnd (fold prior data) data).
Proof.
  unfold MAX_ARRAY_LENGTH. intros Hr Hi He Hd.
  pose proof (indexable_count_bounds data) as Hc.
  assert (Hcount : totalIndexablePages (fold prior data) = indexable_count data)
    by (rewrite fold_spec; reflexivity).
  set (st := fold prior data) in *.
  assert (Hli : 0 <= len (internalLinks st)) by (unfold len; lia).
  assert (Hle : 0 <= len (externalLinks st)) by (unfold len; lia).
  assert (Hfixed : exists n, 0 <= n <= 100 /\ "100%" = pretty (Z.to_N n) +:+ "%").
  { exists 100. split; [lia | reflexivity]. }
  assert (Hzero : exists n, 0 <= n <= 100 /\ "0%" = pretty (Z.to_N n) +:+ "%").
  { exists 0. split; [lia | reflexivity]. }
  unfold summaryData. repeat apply Forall_cons_2; try apply Forall_nil_2;
    cbn [percentage]; try exact Hfixed; unfold nonzero.
  - destruct (Z.eqb_spec (len (internalLinks st) + len (externalLinks st)) 0);
      [exact Hzero|]. apply percent_in_range; [exact Hr | lia | lia].
  - destruct (Z.eqb_spec (len (internalLinks st) + len (externalLinks st)) 0);
      [exact Hzero|]. apply percent_in_range; [exact Hr | lia | lia].
  - destruct (Z.eqb_spec (len data) 0); [exact Hzero|].
    apply percent_in_range; [exact Hr | lia | unfold len in *; lia].
  - destruct (Z.eqb_spec (len data) 0); [exact Hzero|].
    apply percent_in_range; [exact Hr | lia | unfold len in *; lia].
Qed.

Lemma X12_settled_percentages_in_range_witness :
  Forall
    (fun row =>
       exists n, 0 <= n <= 100 /\ percentage row = pretty (Z.to_N n) +:+ "%")
    (summaryData (fun x => x)
       (fold initialState [page ["/a"; "/b"] ["/c"] score_0_9; bare_page; bare_page])
       [page ["/a"; "/b"] ["/c"] score_0_9; bare_page; bare_page]).
Proof.
  apply (X12_settled_percentages_in_range (fun x => x)).
  - exact exact_rounding.
  - vm_compute; reflexivity.
  - vm_compute; reflexivity.
  - vm_compute; reflexivity.
Defined.

(** * Properties of the chat container *)

Lemma handleSubmit_blank trim now input c :
  trim input = "" ->
  handleSubmit trim now input c =
  {| container := c; input_field := input; request := None |}.
Proof. intros H. unfold handleSubmit. rewrite H. reflexivity. Qed.

Lemma handleSubmit_sends trim now input c :
  trim input <> "" ->
  handleSubmit trim now input c =
  {| container :=
       {| messages := messages c ++ [{| id := now; role := user; content := input |}];
          localStorage := localStorage c;
          toasts := toasts c |};
     input_field := "";
     request :=
       Some {| prompt := input;
               updatedMessages :=
                 messages c ++ [{| id := now; role := user; content := input |}] |} |}.
Proof.
  intros H. unfold handleSubmit. apply String.eqb_neq in H. rewrite H. reflexivity.
Qed.

Lemma loadMessages_stored JSON_parse c stored ms :
  localStorage c !! LOCAL_STORAGE_KEY = Some stored ->
  stored <> "" -> JSON_parse stored = ParsedArray ms ->
  messages (loadMessages JSON_parse c) = ms.
Proof.
  intros Hget Hne Hparse. unfold loadMessages. rewrite Hget.
  apply String.eqb_neq in Hne. rewrite Hne, Hparse. reflexivity.
Qed.

(** X13. Clearing the chat history removes the messages and their entry
    of the local storage and nothing else: every other entry, such as the
    stored AI provider, is kept; loading the messages afterwards restores
    nothing; and clearing again changes neither messages nor storage. *)
Theorem X13_clear_removes_only_chat_entry
  (JSON_parse : string -> Parsed) (c : AIcontainer) :
  messages (clearChatHistory c) = [] /\
  localStorage (clearChatHistory c) !! LOCAL_STORAGE_KEY = None /\
  (forall key, key <> LOCAL_STORAGE_KEY ->
     localStorage (clearChatHistory c) !! key = localStorage c !! key) /\
  (forall selectedModel,
     check_provider (clearChatHistory c) selectedModel =
     check_provider c selectedModel) /\
  loadMessages JSON_parse (clearChatHistory c) = clearChatHistory c /\
  messages (clearChatHistory (clearChatHistory c)) = messages (clearChatHistory c) /\
  localStorage (clearChatHistory (clearChatHistory c)) =
    localStorage (clearChatHistory c).
Proof.
  split; [reflexivity|]. split; [apply lookup_delete_eq|].
  split; [intros key Hkey; apply lookup_delete_ne; congruence|].
  split.
  - intros selectedModel. unfold check_provider. simpl.
    rewrite lookup_delete_ne by discriminate. reflexivity.
  - split; [|split; [reflexivity|]].
    + unfold loadMessages. simpl. rewrite lookup_delete_eq. reflexivity.
    + simpl. apply delete_delete_eq.
Qed.

(** X14. A submit with a blank input changes nothing.  Otherwise, when the
    request resolves, the messages are the former ones followed by the
    user's message and the reply, whose id is larger when the clock has not
    gone back, and no other entry of the storage changes.  When the write
    succeeds they are stored, and a container mounted on that storage
    loads exactly them, provided [JSON.parse] reads back what
    [JSON.stringify] wrote for them; when [setItem] throws, the storage is
    the one from before. *)
Theorem X14_exchange_is_stored_and_reloaded
  (JSON_parse : string -> Parsed) (JSON_stringify : list Message -> string)
  (trim : string -> string)
  (t1 : Z) (input : string) (t2 : Z) (response : string)
  (setItem_throws : bool) (c : AIcontainer) :
  (trim input = "" ->
   exchange JSON_stringify trim t1 input t2 response setItem_throws c = c) /\
  (trim input <> "" ->
   let userMessage := {| id := t1; role := user; content := input |} in
   let assistantMessage := {| id := t2 + 1; role := assistant; content := response |} in
   let after := exchange JSON_stringify trim t1 input t2 response setItem_throws c in
   messages after = messages c ++ [userMessage; assistantMessage] /\
   (t1 <= t2 -> id userMessage < id assistantMessage) /\
   (forall key, key <> LOCAL_STORAGE_KEY ->
      localStorage after !! key = localStorage c !! key) /\
   (setItem_throws = true -> localStorage after = localStorage c) /\
   (setItem_throws = false ->
    localStorage after !! LOCAL_STORAGE_KEY = Some (JSON_stringify (messages after)) /\
    (JSON_stringify (messages after) <> "" ->
     JSON_parse (JSON_stringify (messages after)) = ParsedArray (messages after) ->
     messages (loadMessages JSON_parse (fresh_container (localStorage after))) =
     messages after))).
Proof.
  split.
  - intros Hblank. unfold exchange. rewrite handleSubmit_blank by exact Hblank.
    reflexivity.
  - intros Hinput. unfold exchange. rewrite handleSubmit_sends by exact Hinput.
    cbn -[LOCAL_STORAGE_KEY]. rewrite <- !app_assoc. simpl app.
    split; [reflexivity|]. split; [lia|]. split.
    { intros key Hkey. destruct setItem_throws; [reflexivity|].
      apply lookup_insert_ne. congruence. }
    split; [intros ->; reflexivity|].
    intros ->. split; [apply lookup_insert_eq|].
    intros Hne Hparse.
    apply (loadMessages_stored _ _ _ _ (lookup_insert_eq _ _ _) Hne Hparse).
Qed.

(** X15. When the request fails, the user's message stays on screen and a
    toast reports the failure, but nothing is stored: the local storage is
    the one from before the submit, so a container mounted on it loads
    what it would have loaded before. *)
Theorem X15_failed_request_is_not_stored
  (JSON_parse : string -> Parsed) (trim : string -> string)
  (now : Z) (input : string) (c : AIcontainer) :
  trim input <> "" ->
  let failed := handleSubmit_rejected (container (handleSubmit trim now input c)) in
  messages failed = messages c ++ [{| id := now; role := user; content := input |}] /\
  toasts failed = toasts c ++ ["Failed to get response from AI"] /\
  localStorage failed = localStorage c /\
  loadMessages JSON_parse (fresh_container (localStorage failed)) =
  loadMessages JSON_parse (fresh_container (localStorage c)).
Proof.
  intros Hinput. rewrite handleSubmit_sends by exact Hinput. simpl.
  repeat split.
Qed.

Lemma X15_failed_request_is_not_stored_witness :
  localStorage
    (handleSubmit_rejected
       (container (handleSubmit (fun s => s) 7 "hello" (fresh_container ∅)))) = ∅.
Proof.
  apply (X15_failed_request_is_not_stored (fun _ => ParseError) (fun s => s) 7 "hello"
           (fresh_container ∅)).
  discriminate.
Defined.

(** X16. Two requests in flight at once: each continuation writes the
    messages its own call captured.  When the first reply arrives, the
    second user message disappears from the screen; when the second reply
    arrives, the messages are the former ones, both user messages and the
    second reply: the first reply is gone.  That list is what is stored
    when the second write succeeds; when it throws, the storage holds what
    the first continuation wrote, or what it held before if that write
    threw as well. *)
Theorem X16_overlapping_requests_lose_first_reply
  (JSON_stringify : list Message -> string) (trim : string -> string)
  (c : AIcontainer)
  (t1 : Z) (input1 : string) (t2 : Z) (input2 : string)
  (t3 : Z) (response1 : string) (throws1 : bool)
  (t4 : Z) (response2 : string) (throws2 : bool) :
  trim input1 <> "" -> trim input2 <> "" ->
  exists c1 r1 c2 r2,
    handleSubmit trim t1 input1 c =
      {| container := c1; input_field := ""; request := Some r1 |} /\
    handleSubmit trim t2 input2 c1 =
      {| container := c2; input_field := ""; request := Some r2 |} /\
    let user1 := {| id := t1; role := user; content := input1 |} in
    let user2 := {| id := t2; role := user; content := input2 |} in
    let reply1 := {| id := t3 + 1; role := assistant; content := response1 |} in
    let reply2 := {| id := t4 + 1; role := assistant; content := response2 |} in
    let c3 := handleSubmit_resolved JSON_stringify t3 response1 r1 throws1 c2 in
    let c4 := handleSubmit_resolved JSON_stringify t4 response2 r2 throws2 c3 in
    messages c2 = messages c ++ [user1; user2] /\
    messages c3 = messages c ++ [user1; reply1] /\
    messages c4 = messages c ++ [user1; user2; reply2] /\
    (throws2 = false ->
     localStorage c4 !! LOCAL_STORAGE_KEY =
       Some (JSON_stringify (messages c ++ [user1; user2; reply2]))) /\
    (throws2 = true -> throws1 = false ->
     localStorage c4 !! LOCAL_STORAGE_KEY =
       Some (JSON_stringify (messages c ++ [user1; reply1]))) /\
    (throws2 = true -> throws1 = true -> localStorage c4 = localStorage c).
Proof.
  intros H1 H2. do 4 eexists.
  split; [apply handleSubmit_sends, H1|].
  split; [apply handleSubmit_sends, H2|].
  cbn -[LOCAL_STORAGE_KEY]. rewrite <- !app_assoc. simpl app.
  split; [reflexivity|]. split; [reflexivity|]. split; [reflexivity|].
  split; [intros ->; apply lookup_insert_eq|].
  split; [intros -> ->; apply lookup_insert_eq|].
  intros -> ->. reflexivity.
Qed.

Lemma X16_overlapping_requests_lose_first_reply_witness :
  exists c1 r1 c2 r2,
    handleSubmit (fun s => s) 1 "a" (fresh_container ∅) =
      {| container := c1; input_field := ""; request := Some r1 |} /\
    handleSubmit (fun s => s) 2 "b" c1 =
      {| container := c2; input_field := ""; request := Some r2 |} /\
    messages
      (handleSubmit_resolved (fun _ => "[]") 4 "B" r2 false
         (handleSubmit_resolved (fun _ => "[]") 3 "A" r1 false c2)) =
    [ {| id := 1; role := user; content := "a" |};
      {| id := 2; role := user; content := "b" |};
      {| id := 5; role := assistant; content := "B" |} ].
Proof.
  destruct (X16_overlapping_requests_lose_first_reply (fun _ => "[]") (fun s => s)
              (fresh_container ∅) 1 "a" 2 "b" 3 "A" false 4 "B" false)
    as (c1 & r1 & c2 & r2 & E1 & E2 & _ & _ & E4 & _); [discriminate | discriminate |].
  exists c1, r1, c2, r2. split; [exact E1|]. split; [exact E2|]. exact E4.
Defined.
